(** * The storage value codec of thor's [state] package

    A shallow embedding of [state/storage.go] ([encodeStorage],
    [decodeStorage] and their helpers) together with the parts of the
    go-ethereum packages [rlp] and [common] and of [math/big] that the
    file calls, and the properties of the codec proved over it. *)

From Stdlib Require Import ZArith List Bool Lia.
From Stdlib.Strings Require Import String Ascii Byte.
From Stdlib.Numbers Require Import DecimalString.
Import ListNotations.
Open Scope Z_scope.

(** ** Bytes and unsigned machine integers *)

Definition byte : Type := Byte.byte.

(** The numeric value of a byte. *)
Definition Zbyte (b : byte) : Z := Z.of_N (Byte.to_N b).

(** Go's conversion [byte(i)]: truncation to the low eight bits. *)
Definition byteZ (i : Z) : byte :=
  match Byte.of_N (Z.to_N (i mod 256)) with
  | Some b => b
  | None => Byte.x00
  end.

(** Go's conversion [uint64(i)]. *)
Definition uint64 (i : Z) : Z := i mod 2 ^ 64.

(** [len] of a slice or of a string's bytes. *)
Definition len {A} (l : list A) : Z := Z.of_nat (List.length l).

(** [b[lo:]] and [b[:hi]] on slices. *)
Definition slice_from {A} (lo : Z) (b : list A) : list A := skipn (Z.to_nat lo) b.
Definition slice_to {A} (hi : Z) (b : list A) : list A := firstn (Z.to_nat hi) b.

(** [b[0]] where the index is known to be in range. *)
Definition first (b : list byte) : byte := hd Byte.x00 b.

(** [n] bytes of [i], most significant first:
    [byte(i >> 8(n-1)), ..., byte(i >> 8), byte(i)]. *)
Fixpoint be_bytes (n : nat) (i : Z) : list byte :=
  match n with
  | O => []
  | S m => byteZ (Z.shiftr i (8 * Z.of_nat m)) :: be_bytes m i
  end.

(** The unsigned integer a byte string denotes, most significant byte first
    ([binary.BigEndian.Uint64] on a zero-padded buffer, [big.Int.SetBytes]). *)
Definition be_uint (b : list byte) : Z :=
  fold_left (fun acc x => acc * 256 + Zbyte x) b 0.

(** The unsigned integer types of the type switch. *)
Inductive uintKind : Type := Kuint | Kuint8 | Kuint16 | Kuint32 | Kuint64.

(** [reflect.Type.Bits]; [uint] is taken at its 64-bit width. *)
Definition Bits (k : uintKind) : Z :=
  match k with
  | Kuint => 64
  | Kuint8 => 8
  | Kuint16 => 16
  | Kuint32 => 32
  | Kuint64 => 64
  end.

Definition uintName (k : uintKind) : string :=
  match k with
  | Kuint => "uint"
  | Kuint8 => "uint8"
  | Kuint16 => "uint16"
  | Kuint32 => "uint32"
  | Kuint64 => "uint64"
  end.

(** ** Results and errors *)

Inductive error : Type :=
(* rlp/decode.go *)
| ErrExpectedString
| ErrExpectedList
| ErrCanonInt
| ErrCanonSize
| ErrElemTooLarge
| ErrValueTooLarge
| ErrMoreThanOneValue
| errUintOverflow
| errNoPointer
| errDecodeIntoNil
(* package io *)
| io_EOF
| io_ErrUnexpectedEOF
(* *rlp.decodeError: message and target type *)
| decodeError (msg typ : string)
(* errors.New and fmt.Errorf: the message *)
| errorString (msg : string).

(** What a Go call returning [(A, error)] can do: return a value with a nil
    error, return a non-nil error, or panic at run time. A call returning
    only [error] has [A] the state it leaves behind. *)
Inductive outcome (A : Type) : Type :=
| Ok (a : A)
| Err (e : error)
| Panic.
Arguments Ok {A} a.
Arguments Err {A} e.
Arguments Panic {A}.

Definition omap {A B} (f : A -> B) (o : outcome A) : outcome B :=
  match o with
  | Ok a => Ok (f a)
  | Err e => Err e
  | Panic => Panic
  end.

(** ** math/big: [*big.Int] as an integer *)

Module big.

Definition Sign (x : Z) : Z := Z.sgn x.

Definition Cmp (x y : Z) : Z :=
  match x ?= y with
  | Lt => -1
  | Eq => 0
  | Gt => 1
  end.

(** The number of bytes of the magnitude of a positive integer. *)
Definition byteLen (x : Z) : nat := Z.to_nat (Z.log2 x / 8 + 1).

(** [x.Bytes()]: the absolute value as a big-endian byte slice, empty for
    zero. *)
Definition Bytes (x : Z) : list byte :=
  if Z.abs x =? 0 then [] else be_bytes (byteLen (Z.abs x)) (Z.abs x).

(** [z.SetBytes(b)]: the unsigned big-endian value of [b]. *)
Definition SetBytes (b : list byte) : Z := be_uint b.

Definition SetUint64 (x : Z) : Z := x.

End big.

(** ** go-ethereum/common: [Hash.SetBytes] and [Address.SetBytes] *)

Module common.

Definition HashLength : Z := 32.
Definition AddressLength : Z := 20.

(** Modelled from the spec: the fixed-width copy of a decoded payload into
    a hash or an address, for which [storage.go] calls go-ethereum's
    [Hash.SetBytes] and [Address.SetBytes]; their source is not among the
    sources of this repository. [h.SetBytes(b)] on an array [h] of [n]
    bytes crops [b] from the left when it is longer than [h], then does
    [copy(h[n-len(b):], b)]. The copy writes [len(b)] bytes; the bytes of
    [h] before them stay. *)
Definition SetBytes (n : Z) (h b : list byte) : list byte :=
  let b := if n <? len b then slice_from (len b - n) b else b in
  slice_to (n - len b) h ++ b.

End common.

(** ** go-ethereum/rlp: the envelope *)

(** The envelope: the length-prefixed framing [storage.go] wraps every
    non-empty payload in. The file imports it as go-ethereum's [rlp]
    package, whose source is not among the sources of this repository; the
    definitions below follow that package for the calls [storage.go] makes:
    [EncodeToBytes] on a [uint64], a [[]byte], a [string], a [*bool] and a
    [*big.Int] (encode.go), [DecodeBytes] into a [*string], a pointer to an
    unsigned integer, a [*bool] and a [*big.Int] (decode.go), and [Split]
    (raw.go). *)
Module rlp.

Inductive Kind : Type := Byte | String | List.

(** *** encode.go *)

(** The dynamic types [storage.go] hands to [EncodeToBytes]. *)
Inductive encArg : Type :=
| EUint64 (i : Z)
| EBytes (b : list byte)
| EString (s : string)
| EPBool (p : option bool)
| EPBigInt (p : option Z).

(** [encbuf]: with no list being written only its [str] matters. *)
Definition encbuf : Type := list byte.

(** [putint] writes [i] in big-endian order with as few bytes as possible;
    the result is the bytes written, its length the size returned. *)
Definition putint (i : Z) : list byte :=
  if i <? 2 ^ 8 then [byteZ i]
  else if i <? 2 ^ 16 then [byteZ (Z.shiftr i 8); byteZ i]
  else if i <? 2 ^ 24 then [byteZ (Z.shiftr i 16); byteZ (Z.shiftr i 8); byteZ i]
  else if i <? 2 ^ 32 then
    [byteZ (Z.shiftr i 24); byteZ (Z.shiftr i 16); byteZ (Z.shiftr i 8); byteZ i]
  else if i <? 2 ^ 40 then
    [byteZ (Z.shiftr i 32); byteZ (Z.shiftr i 24); byteZ (Z.shiftr i 16);
     byteZ (Z.shiftr i 8); byteZ i]
  else if i <? 2 ^ 48 then
    [byteZ (Z.shiftr i 40); byteZ (Z.shiftr i 32); byteZ (Z.shiftr i 24);
     byteZ (Z.shiftr i 16); byteZ (Z.shiftr i 8); byteZ i]
  else if i <? 2 ^ 56 then
    [byteZ (Z.shiftr i 48); byteZ (Z.shiftr i 40); byteZ (Z.shiftr i 32);
     byteZ (Z.shiftr i 24); byteZ (Z.shiftr i 16); byteZ (Z.shiftr i 8); byteZ i]
  else
    [byteZ (Z.shiftr i 56); byteZ (Z.shiftr i 48); byteZ (Z.shiftr i 40);
     byteZ (Z.shiftr i 32); byteZ (Z.shiftr i 24); byteZ (Z.shiftr i 16);
     byteZ (Z.shiftr i 8); byteZ i].

Definition encodeStringHeader (size : Z) (w : encbuf) : encbuf :=
  if size <? 56 then w ++ [byteZ (0x80 + size)]
  else
    let sizebuf := putint (uint64 size) in
    w ++ byteZ (0xB7 + len sizebuf) :: sizebuf.

Definition encodeString (b : list byte) (w : encbuf) : encbuf :=
  if (len b =? 1) && (Zbyte (first b) <=? 0x7F) then w ++ [first b]
  else encodeStringHeader (len b) w ++ b.

Definition writeUint (i : Z) (w : encbuf) : outcome encbuf :=
  if i =? 0 then Ok (w ++ [byteZ 0x80])
  else if i <? 128 then Ok (w ++ [byteZ i])
  else
    let sizebuf := putint i in
    Ok (w ++ byteZ (0x80 + len sizebuf) :: sizebuf).

Definition writeBool (b : bool) (w : encbuf) : outcome encbuf :=
  if b then Ok (w ++ [byteZ 0x01]) else Ok (w ++ [byteZ 0x80]).

Definition writeBytes (b : list byte) (w : encbuf) : outcome encbuf :=
  Ok (encodeString b w).

Definition writeString (s : string) (w : encbuf) : outcome encbuf :=
  let b := list_byte_of_string s in
  if (len b =? 1) && (Zbyte (first b) <=? 0x7F) then Ok (w ++ [first b])
  else Ok (encodeStringHeader (len b) w ++ b).

Definition writeBigInt (i : Z) (w : encbuf) : outcome encbuf :=
  let cmp := big.Cmp i 0 in
  if cmp =? -1 then Err (errorString "rlp: cannot encode negative *big.Int")
  else if cmp =? 0 then Ok (w ++ [byteZ 0x80])
  else Ok (encodeString (big.Bytes i) w).

Definition writeBigIntPtr (p : option Z) (w : encbuf) : outcome encbuf :=
  match p with
  | None => Ok (w ++ [byteZ 0x80])
  | Some i => writeBigInt i w
  end.

(** The writer [makePtrWriter] builds for [*bool]: a nil pointer is
    written as the zero value of the element type. *)
Definition writeBoolPtr (p : option bool) (w : encbuf) : outcome encbuf :=
  match p with
  | None => writeBool false w
  | Some b => writeBool b w
  end.

(** [encbuf.encode]: the writer [makeWriter] selects for the type. *)
Definition encode (val : encArg) (w : encbuf) : outcome encbuf :=
  match val with
  | EUint64 i => writeUint i w
  | EBytes b => writeBytes b w
  | EString s => writeString s w
  | EPBool p => writeBoolPtr p w
  | EPBigInt p => writeBigIntPtr p w
  end.

(** Modelled from the spec: wrapping a payload in the envelope, go-ethereum's
    [rlp.EncodeToBytes]: a fresh buffer, the writer of the type, and the
    bytes written. *)
Definition EncodeToBytes (val : encArg) : outcome (list byte) :=
  encode val [].

(** *** decode.go *)

(** The stream over a byte slice: [r] is the input not read yet, so that
    [s.remaining] is [len r] and [s.limited] holds; the list stack is
    empty, as no list is entered. The kind cache is not kept: each decoder
    below asks for the kind once and then reads, which rearms it. *)
Record Stream : Type := mkStream { r : list byte; byteval : byte }.

Definition M (A : Type) : Type := Stream -> outcome (A * Stream).

Definition ret {A} (a : A) : M A := fun s => Ok (a, s).

Definition fail {A} (e : error) : M A := fun _ => Err e.

Definition bind {A B} (m : M A) (k : A -> M B) : M B :=
  fun s =>
    match m s with
    | Ok (a, s') => k a s'
    | Err e => Err e
    | Panic => Panic
    end.

Notation "x <- m ;; k" := (bind m (fun x => k))
  (at level 61, m at next level, right associativity).
Notation "' p <- m ;; k" := (bind m (fun x => let p := x in k))
  (at level 61, p pattern, m at next level, right associativity).

(** [readByte]: [willRead(1)], then the underlying [ReadByte]. *)
Definition readByte : M byte :=
  fun s =>
    if len (r s) <? 1 then Err ErrValueTooLarge
    else
      match r s with
      | b :: rest => Ok (b, mkStream rest (byteval s))
      | [] => Err io_ErrUnexpectedEOF
      end.

(** [readFull] into a buffer of [n] bytes: [willRead(n)], then the reads. *)
Definition readFull (n : Z) : M (list byte) :=
  fun s =>
    if len (r s) <? n then Err ErrValueTooLarge
    else Ok (slice_to n (r s), mkStream (slice_from n (r s)) (byteval s)).

(** [readUint(size)]: above eight bytes, [8 - size] wraps around and
    zeroing [uintbuf] runs past its end. *)
Definition readUint (size : Z) : M Z :=
  if size =? 0 then ret 0
  else if size =? 1 then b <- readByte ;; ret (Zbyte b)
  else if 8 <? size then fun _ => Panic
  else
    buf <- readFull size ;;
    if Zbyte (first buf) =? 0 then fail ErrCanonSize
    else ret (be_uint buf).

Definition setByteval (b : byte) : M unit :=
  fun s => Ok (tt, mkStream (r s) b).

Definition readKind : M (Kind * Z) :=
  fun s =>
    match readByte s with
    | Err e =>
        (* at toplevel the error becomes an actual EOF *)
        match e with
        | io_ErrUnexpectedEOF => Err io_EOF
        | ErrValueTooLarge => Err io_EOF
        | _ => Err e
        end
    | Panic => Panic
    | Ok (b, s) =>
        (_ <- setByteval Byte.x00 ;;
         if Zbyte b <? 0x80 then
           _ <- setByteval b ;; ret (Byte, 0)
         else if Zbyte b <? 0xB8 then
           ret (String, Zbyte b - 0x80)
         else if Zbyte b <? 0xC0 then
           size <- readUint (Zbyte b - 0xB7) ;;
           if size <? 56 then fail ErrCanonSize else ret (String, size)
         else if Zbyte b <? 0xF8 then
           ret (List, Zbyte b - 0xC0)
         else
           size <- readUint (Zbyte b - 0xF7) ;;
           if size <? 56 then fail ErrCanonSize else ret (List, size)) s
    end.

(** [Kind]: at toplevel the value must fit the remaining input. *)
Definition StreamKind : M (Kind * Z) :=
  ' (kind, size) <- readKind ;;
  fun s =>
    if len (r s) <? size then Err ErrValueTooLarge
    else Ok ((kind, size), s).

Definition uint (maxbits : Z) : M Z :=
  ' (kind, size) <- StreamKind ;;
  match kind with
  | Byte =>
      fun s =>
        if Zbyte (byteval s) =? 0 then Err ErrCanonInt
        else Ok (Zbyte (byteval s), s)
  | String =>
      if maxbits / 8 <? size then fail errUintOverflow
      else
        fun s =>
          match readUint (Zbyte (byteZ size)) s with
          | Err ErrCanonSize => Err ErrCanonInt
          | Err e => Err e
          | Panic => Panic
          | Ok (v, s') =>
              if (0 <? size) && (v <? 128) then Err ErrCanonSize
              else Ok (v, s')
          end
  | List => fail ErrExpectedString
  end.

Definition Bytes : M (list byte) :=
  ' (kind, size) <- StreamKind ;;
  match kind with
  | Byte => fun s => Ok ([byteval s], s)
  | String =>
      b <- readFull size ;;
      if (size =? 1) && (Zbyte (first b) <? 128) then fail ErrCanonSize
      else ret b
  | List => fail ErrExpectedString
  end.

Definition decimal (n : Z) : string :=
  NilZero.string_of_uint (N.to_uint (Z.to_N n)).

Definition Bool : M bool :=
  num <- uint 8 ;;
  if num =? 0 then ret false
  else if num =? 1 then ret true
  else fail (errorString ("rlp: invalid boolean value: " ++ decimal num)).

Definition wrapStreamError (err : error) (typ : string) : error :=
  match err with
  | ErrCanonInt => decodeError "non-canonical integer (leading zero bytes)" typ
  | ErrCanonSize => decodeError "non-canonical size (leading zero bytes)" typ
  | ErrExpectedList => decodeError "expected input list" typ
  | ErrExpectedString => decodeError "expected input string or byte" typ
  | errUintOverflow => decodeError "input string too long" typ
  | _ => err
  end.

(** [if err != nil { return wrapStreamError(err, val.Type()) }] *)
Definition wrapped {A} (m : M A) (typ : string) : M A :=
  fun s =>
    match m s with
    | Err e => Err (wrapStreamError e typ)
    | o => o
    end.

(** The pointers [storage.go] hands to [DecodeBytes], by element type,
    and what each points to. *)
Inductive ptrType : Type :=
| TString
| TUint (k : uintKind)
| TBool
| TBigInt.

Definition pointee (t : ptrType) : Type :=
  match t with
  | TString => string
  | TUint _ => Z
  | TBool => bool
  | TBigInt => Z
  end.

Definition decodeUint (k : uintKind) : M Z :=
  wrapped (uint (Bits k)) (uintName k).

Definition decodeString : M string :=
  b <- wrapped Bytes "string" ;;
  ret (string_of_list_byte b).

Definition decodeBool : M bool :=
  wrapped Bool "bool".

Definition decodeBigInt : M Z :=
  b <- wrapped Bytes "*big.Int" ;;
  if (0 <? len b) && (Zbyte (first b) =? 0)
  then fail (wrapStreamError ErrCanonInt "*big.Int")
  else ret (big.SetBytes b).

Definition decoder (t : ptrType) : M (pointee t) :=
  match t with
  | TString => decodeString
  | TUint k => decodeUint k
  | TBool => decodeBool
  | TBigInt => decodeBigInt
  end.

(** [Stream.Decode(val)] for a pointer [val]: the result is the new
    content of [*val]. *)
Definition Decode (t : ptrType) (val : option (pointee t)) : M (pointee t) :=
  match val with
  | None => fail errDecodeIntoNil
  | Some _ => decoder t
  end.

(** Modelled from the spec: parsing exactly one envelope entry,
    go-ethereum's [rlp.DecodeBytes(b, val)]: the new content of [*val], or
    the error. When the input holds more than one value the error is
    returned after [*val] was written; the state left behind on an error is
    not modelled. *)
Definition DecodeBytes (t : ptrType) (b : list byte) (val : option (pointee t))
  : outcome (pointee t) :=
  match Decode t val (mkStream b Byte.x00) with
  | Ok (v, s) => if 0 <? len (r s) then Err ErrMoreThanOneValue else Ok v
  | Err e => Err e
  | Panic => Panic
  end.

(** *** raw.go *)

(** [readSize]: the switch over [slen] spells out the big-endian value of
    the first [slen] bytes, for [slen] from 1 to 8. *)
Definition readSize (b : list byte) (slen : Z) : outcome Z :=
  if len b <? slen then Err io_ErrUnexpectedEOF
  else
    let s := if (1 <=? slen) && (slen <=? 8) then be_uint (slice_to slen b) else 0 in
    if (s <? 56) || (Zbyte (first b) =? 0) then Err ErrCanonSize
    else Ok s.

(** [readKind] of raw.go: kind, tag size and content size. *)
Definition rawReadKind (buf : list byte) : outcome (Kind * Z * Z) :=
  match buf with
  | [] => Err io_ErrUnexpectedEOF
  | b :: _ =>
      let check (k : Kind) (tagsize contentsize : Z) : outcome (Kind * Z * Z) :=
        if uint64 (len buf - tagsize) <? contentsize then Err ErrValueTooLarge
        else Ok (k, tagsize, contentsize) in
      if Zbyte b <? 0x80 then check Byte 0 1
      else if Zbyte b <? 0xB8 then
        let contentsize := Zbyte b - 0x80 in
        if (contentsize =? 1) && (1 <? len buf)
           && (Zbyte (first (slice_from 1 buf)) <? 128)
        then Err ErrCanonSize
        else check String 1 contentsize
      else if Zbyte b <? 0xC0 then
        match readSize (slice_from 1 buf) (Zbyte b - 0xB7) with
        | Ok contentsize => check String (Zbyte b - 0xB7 + 1) contentsize
        | Err e => Err e
        | Panic => Panic
        end
      else if Zbyte b <? 0xF8 then check List 1 (Zbyte b - 0xC0)
      else
        match readSize (slice_from 1 buf) (Zbyte b - 0xF7) with
        | Ok contentsize => check List (Zbyte b - 0xF7 + 1) contentsize
        | Err e => Err e
        | Panic => Panic
        end
  end.

(** Modelled from the spec: splitting off the first envelope entry,
    go-ethereum's [rlp.Split]: the kind and content of the first value and
    the bytes after it. *)
Definition Split (b : list byte) : outcome (Kind * list byte * list byte) :=
  match rawReadKind b with
  | Ok (k, ts, cs) =>
      Ok (k, slice_to cs (slice_from ts b), slice_from (ts + cs) b)
  | Err e => Err e
  | Panic => Panic
  end.

End rlp.

(** The three entry points of the package, as [storage.go] calls them. The
    codec is written over this signature; [geth] below is the package
    itself. *)
Class rlpPackage : Type := {
  rlp_EncodeToBytes : rlp.encArg -> outcome (list byte);
  rlp_Split : list byte -> outcome (rlp.Kind * list byte * list byte);
  rlp_DecodeBytes :
    forall t : rlp.ptrType, list byte -> option (rlp.pointee t) -> outcome (rlp.pointee t)
}.

#[export] Instance geth : rlpPackage := {|
  rlp_EncodeToBytes := rlp.EncodeToBytes;
  rlp_Split := rlp.Split;
  rlp_DecodeBytes := rlp.DecodeBytes
|}.

(** ** thor: the fixed-size types *)

Module thor.

(** [thor.Bytes32] is [[32]byte], [thor.Address] is [[20]byte]; the zero
    value of an array type, [thor.Bytes32{}], has every byte zero. *)
Definition zeroBytes (n : Z) : list byte := repeat Byte.x00 (Z.to_nat n).

End thor.

(** ** state/storage.go *)

Module state.

(** [StorageEncoder]: a value seen through the interface, that is what
    its [Encode()] returns. *)
Record StorageEncoder : Type := { Encode : outcome (list byte) }.

(** [StorageDecoder]: what [Decode(data)] returns, nil or an error. *)
Record StorageDecoder : Type := { Decode : list byte -> option error }.

(** The values an [interface{}] argument can hold, one constructor per
    dynamic type the type switches name: [V..] is the type itself, [P..]
    the pointer to it, [None] the nil pointer. [VBigInt] is a [big.Int]
    passed by value. [VOther] is a value of any other type, with the name
    [reflect.TypeOf(val).String()] prints and the methods of the two
    interfaces its type has; [VNil] is the nil interface. *)
Inductive value : Type :=
| VBytes32 (v : list byte)
| PBytes32 (v : option (list byte))
| VAddress (v : list byte)
| PAddress (v : option (list byte))
| VString (v : string)
| PString (v : option string)
| VUint (k : uintKind) (v : Z)
| PUint (k : uintKind) (v : option Z)
| VBool (v : bool)
| PBool (v : option bool)
| VBigInt (v : Z)
| PBigInt (v : option Z)
| VOther (name : string) (enc : option StorageEncoder) (dec : option StorageDecoder)
| VNil.

(** [reflect.TypeOf(val).String()]; [reflect.TypeOf] of the nil interface
    is nil. *)
Definition typeString (val : value) : option string :=
  match val with
  | VBytes32 _ => Some "thor.Bytes32"
  | PBytes32 _ => Some "*thor.Bytes32"
  | VAddress _ => Some "thor.Address"
  | PAddress _ => Some "*thor.Address"
  | VString _ => Some "string"
  | PString _ => Some "*string"
  | VUint k _ => Some (uintName k)
  | PUint k _ => Some ("*" ++ uintName k)
  | VBool _ => Some "bool"
  | PBool _ => Some "*bool"
  | VBigInt _ => Some "big.Int"
  | PBigInt _ => Some "*big.Int"
  | VOther name _ _ => Some name
  | VNil => None
  end%string.

(** [*v] and [v[:]]: a nil pointer panics. *)
Definition deref {A B} (v : option A) (k : A -> outcome B) : outcome B :=
  match v with
  | Some a => k a
  | None => Panic
  end.

(** [*v = x]: the pointer afterwards. *)
Definition store {A} (v : option A) (x : A) : outcome (option A) :=
  deref v (fun _ => Ok (Some x)).

(** The default case of both switches. *)
Definition unsupported (what : string) (val : value) : outcome (list byte) :=
  match typeString val with
  | Some name => Err (errorString (what ++ name))
  | None => Panic
  end.

(** The index the loop of [encodeBytesTrimmed] stops at. *)
Fixpoint leadingZeros (bs : list byte) : Z :=
  match bs with
  | b :: rest => if Byte.eqb b Byte.x00 then 1 + leadingZeros rest else 0
  | [] => 0
  end.

Section Codec.

Context {pkg : rlpPackage}.

Definition encodeUint (i : Z) : outcome (list byte) :=
  if i =? 0 then Ok [] else rlp_EncodeToBytes (rlp.EUint64 i).

Definition encodeBytesTrimmed (bs : list byte) : outcome (list byte) :=
  let i := leadingZeros bs in
  let trimmed := slice_from i bs in
  if len trimmed =? 0 then Ok [] else rlp_EncodeToBytes (rlp.EBytes trimmed).

Definition encodeString (str : string) : outcome (list byte) :=
  if String.eqb str "" then Ok [] else rlp_EncodeToBytes (rlp.EString str).

Definition encodeBool (b : bool) : outcome (list byte) :=
  if negb b then Ok [] else rlp_EncodeToBytes (rlp.EPBool (Some b)).

Definition encodeStorage (val : value) : outcome (list byte) :=
  match val with
  | VBytes32 v => encodeBytesTrimmed v
  | PBytes32 v => deref v encodeBytesTrimmed
  | VAddress v => encodeBytesTrimmed v
  | PAddress v => deref v encodeBytesTrimmed
  | VString v => encodeString v
  | PString v => deref v encodeString
  | VUint _ v => encodeUint (uint64 v)
  | PUint _ v => deref v (fun i => encodeUint (uint64 i))
  | VBool v => encodeBool v
  | PBool v => deref v encodeBool
  | PBigInt v =>
      deref v (fun i =>
        if big.Sign i =? 0 then Ok [] else rlp_EncodeToBytes (rlp.EPBigInt v))
  | _ => unsupported "encode storage value: type " val
  end.

(** [decodeStorage(data, val)]: [Ok] is the nil error, with [val] as
    the call leaves it. *)
Definition decodeStorage (data : list byte) (val : value) : outcome value :=
  match val with
  | PBytes32 v =>
      if len data =? 0 then omap PBytes32 (store v (thor.zeroBytes 32))
      else
        match rlp_Split data with
        | Err err => Err err
        | Panic => Panic
        | Ok (_, content, _) =>
            omap PBytes32
              (deref v (fun h => Ok (Some (common.SetBytes common.HashLength h content))))
        end
  | PAddress v =>
      if len data =? 0 then omap PAddress (store v (thor.zeroBytes 20))
      else
        match rlp_Split data with
        | Err err => Err err
        | Panic => Panic
        | Ok (_, content, _) =>
            omap PAddress
              (deref v (fun h => Ok (Some (common.SetBytes common.AddressLength h content))))
        end
  | PString v =>
      if len data =? 0 then omap PString (store v ""%string)
      else omap (fun x => PString (Some x)) (rlp_DecodeBytes rlp.TString data v)
  | PUint k v =>
      if len data =? 0 then omap (PUint k) (store v 0)
      else omap (fun x => PUint k (Some x)) (rlp_DecodeBytes (rlp.TUint k) data v)
  | PBool v =>
      if len data =? 0 then omap PBool (store v false)
      else omap (fun x => PBool (Some x)) (rlp_DecodeBytes rlp.TBool data v)
  | PBigInt v =>
      if len data =? 0 then omap PBigInt (deref v (fun _ => Ok (Some (big.SetUint64 0))))
      else omap (fun x => PBigInt (Some x)) (rlp_DecodeBytes rlp.TBigInt data v)
  | _ => omap (fun _ => val) (unsupported "decode storage value: type " val)
  end.

End Codec.

End state.
Import state.

(** ** Vocabulary of the statements *)

(** The dynamic types [encodeStorage] has a case for. *)
Definition isBuiltin (val : value) : bool :=
  match val with
  | VBytes32 _ | PBytes32 _ | VAddress _ | PAddress _
  | VString _ | PString _ | VUint _ _ | PUint _ _
  | VBool _ | PBool _ | PBigInt _ => true
  | VBigInt _ | VOther _ _ _ | VNil => false
  end.

(** The dynamic types [decodeStorage] has a case for. *)
Definition isDest (val : value) : bool :=
  match val with
  | PBytes32 _ | PAddress _ | PString _ | PUint _ _ | PBool _ | PBigInt _ => true
  | _ => false
  end.

(** The built-in types the encoder lists as the type and as its pointer. *)
Definition hasBothForms (val : value) : bool :=
  match val with
  | VBytes32 _ | VAddress _ | VString _ | VUint _ _ | VBool _ => true
  | _ => false
  end.

(** Neither a nil pointer nor the nil interface. *)
Definition nonNil (val : value) : bool :=
  match val with
  | PBytes32 None | PAddress None | PString None | PUint _ None
  | PBool None | PBigInt None | VNil => false
  | _ => true
  end.

(** The pointer to a value; a pointer stays as it is. *)
Definition pointerTo (val : value) : value :=
  match val with
  | VBytes32 v => PBytes32 (Some v)
  | VAddress v => PAddress (Some v)
  | VString v => PString (Some v)
  | VUint k v => PUint k (Some v)
  | VBool v => PBool (Some v)
  | VBigInt v => PBigInt (Some v)
  | _ => val
  end.

(** The zero value of the type of [val], in the form of [val]. *)
Definition zeroOf (val : value) : value :=
  match val with
  | VBytes32 _ => VBytes32 (thor.zeroBytes 32)
  | PBytes32 (Some _) => PBytes32 (Some (thor.zeroBytes 32))
  | VAddress _ => VAddress (thor.zeroBytes 20)
  | PAddress (Some _) => PAddress (Some (thor.zeroBytes 20))
  | VString _ => VString ""
  | PString (Some _) => PString (Some ""%string)
  | VUint k _ => VUint k 0
  | PUint k (Some _) => PUint k (Some 0)
  | VBool _ => VBool false
  | PBool (Some _) => PBool (Some false)
  | VBigInt _ => VBigInt 0
  | PBigInt (Some _) => PBigInt (Some 0)
  | _ => val
  end.

(** A fresh destination for decoding a value of the type of [val]. *)
Definition fresh (val : value) : value := zeroOf (pointerTo val).

(** The values Go can build: arrays have their length, unsigned integers
    their range, and a byte sequence a length that fits [int]. *)
Definition wf (val : value) : Prop :=
  match val with
  | VBytes32 v | PBytes32 (Some v) => len v = 32
  | VAddress v | PAddress (Some v) => len v = 20
  | VString s | PString (Some s) => len (list_byte_of_string s) < 2 ^ 63
  | VUint k v | PUint k (Some v) => 0 <= v < 2 ^ Bits k
  | VBigInt v | PBigInt (Some v) => len (big.Bytes v) < 2 ^ 63
  | _ => True
  end.

(** The number an unsigned integer or a big integer holds. *)
Definition number (val : value) : option Z :=
  match val with
  | VUint _ v | PUint _ (Some v) | PBigInt (Some v) => Some v
  | _ => None
  end.

(** The sign of a big integer is not negative; any other value passes. *)
Definition nonNegative (val : value) : Prop :=
  match val with
  | PBigInt (Some v) => 0 <= v
  | _ => True
  end.

(** The kind [Split] reports for the encoding of the byte string [b]. *)
Definition stringKind (b : list byte) : rlp.Kind :=
  if (len b =? 1) && (Zbyte (first b) <=? 0x7F) then rlp.Byte else rlp.String.

(** The three shapes of the encoding of a byte string [b]: the byte itself,
    a one-byte header, a header followed by the length. *)
Inductive encodedString (b : list byte) : list byte -> Prop :=
| enc_single x :
    b = [x] -> Zbyte x <= 0x7F -> encodedString b [x]
| enc_short h :
    len b < 56 -> ~ (len b = 1 /\ Zbyte (first b) <= 0x7F) ->
    Zbyte h = 0x80 + len b -> encodedString b (h :: b)
| enc_long h :
    56 <= len b < 2 ^ 64 ->
    Zbyte h = 0xB7 + len (rlp.putint (len b)) ->
    encodedString b (h :: rlp.putint (len b) ++ b).

(** The input is exactly one envelope entry, and the entry is a scalar:
    [Split] accepts it as a byte or a string and leaves nothing over. *)
Definition singleScalarEntry (data : list byte) : Prop :=
  exists k content,
    rlp.Split data = Ok (k, content, []) /\ k <> rlp.List.

(** How many bytes the prefix byte [b] asks for after itself: the payload
    of a short string or list, the length bytes of a long one. *)
Definition announced (b : byte) : Z :=
  if Zbyte b <? 0x80 then 0
  else if Zbyte b <? 0xB8 then Zbyte b - 0x80
  else if Zbyte b <? 0xC0 then Zbyte b - 0xB7
  else if Zbyte b <? 0xF8 then Zbyte b - 0xC0
  else Zbyte b - 0xF7.

(** The errors that report input which is not one valid envelope entry. *)
Definition malformedEnvelope (e : error) : bool :=
  match e with
  | ErrExpectedString | ErrExpectedList | ErrCanonInt | ErrCanonSize
  | ErrElemTooLarge | ErrValueTooLarge | ErrMoreThanOneValue
  | errUintOverflow | io_EOF | io_ErrUnexpectedEOF | decodeError _ _ => true
  | errNoPointer | errDecodeIntoNil | errorString _ => false
  end.

(** [sub] occurs in [s]. *)
Definition contains (sub s : string) : Prop :=
  exists pre post, s = (pre ++ sub ++ post)%string.

(** The destinations decoded with [Split] and [SetBytes]. *)
Definition fixedSize (val : value) : bool :=
  match val with
  | PBytes32 _ | PAddress _ => true
  | _ => false
  end.

(** The byte string the encoder elides when empty and wraps otherwise: the
    bytes of a hash or address after its leading zero bytes, the bytes of a
    string, the magnitude of a number, one byte [0x01] for [true]. *)
Definition payloadOf (val : value) : list byte :=
  match val with
  | VBytes32 v | PBytes32 (Some v) | VAddress v | PAddress (Some v) =>
      slice_from (leadingZeros v) v
  | VString s | PString (Some s) => list_byte_of_string s
  | VUint _ v | PUint _ (Some v) | PBigInt (Some v) => big.Bytes v
  | VBool b | PBool (Some b) => if b then [Byte.x01] else []
  | _ => []
  end.

(** The longest encoding a value of the type of [val] can have: the payload
    and one header byte for the fixed-size types, the numbers and bool, up
    to nine header bytes for a string or a big integer. *)
Definition maxEncodedLen (val : value) : Z :=
  match val with
  | VBytes32 _ | PBytes32 _ => 33
  | VAddress _ | PAddress _ => 21
  | VUint k _ | PUint k _ => Bits k / 8 + 1
  | VBool _ | PBool _ => 1
  | _ => len (payloadOf val) + 9
  end.

(** The number a value of a numeric or fixed-size type denotes: the
    big-endian value of a hash or address, the unsigned or big integer
    itself, one for [true] and zero for [false]. *)
Definition denotes (val : value) : option Z :=
  match val with
  | VBytes32 v | PBytes32 (Some v) | VAddress v | PAddress (Some v) => Some (be_uint v)
  | VUint _ v | PUint _ (Some v) | PBigInt (Some v) => Some v
  | VBool b | PBool (Some b) => Some (if b then 1 else 0)
  | _ => None
  end.

(** * Properties *)

(** ** Bytes and big-endian numbers *)

Lemma Zbyte_range (b : byte) : 0 <= Zbyte b < 256.
Proof.
  unfold Zbyte. pose proof (Byte.to_N_bounded b). lia.
Qed.

Lemma byteZ_Zbyte (b : byte) : byteZ (Zbyte b) = b.
Proof.
  unfold byteZ. pose proof (Zbyte_range b) as Hr.
  rewrite Z.mod_small by exact Hr.
  unfold Zbyte. rewrite N2Z.id, Byte.of_to_N. reflexivity.
Qed.

Lemma Zbyte_byteZ (i : Z) : Zbyte (byteZ i) = i mod 256.
Proof.
  unfold byteZ.
  assert (Hr : 0 <= i mod 256 < 256) by (apply Z.mod_pos_bound; lia).
  destruct (Byte.of_N (Z.to_N (i mod 256))) as [b|] eqn:E.
  - apply Byte.to_of_N in E. unfold Zbyte. rewrite E. lia.
  - apply Byte.of_N_None_iff in E. lia.
Qed.

Lemma Zbyte_byteZ_small (i : Z) : 0 <= i < 256 -> Zbyte (byteZ i) = i.
Proof.
  intros H. rewrite Zbyte_byteZ. apply Z.mod_small. exact H.
Qed.

Lemma Zbyte_inj (a b : byte) : Zbyte a = Zbyte b -> a = b.
Proof.
  intros H. rewrite <- (byteZ_Zbyte a), <- (byteZ_Zbyte b), H. reflexivity.
Qed.

Lemma len_nonneg {A} (l : list A) : 0 <= len l.
Proof. unfold len. lia. Qed.

Lemma len_cons {A} (a : A) (l : list A) : len (a :: l) = 1 + len l.
Proof. unfold len. simpl List.length. lia. Qed.

Lemma len_app {A} (l1 l2 : list A) : len (l1 ++ l2) = len l1 + len l2.
Proof. unfold len. rewrite length_app. lia. Qed.

Lemma len_zero_nil {A} (l : list A) : len l = 0 -> l = [].
Proof. destruct l; [reflexivity | rewrite len_cons; pose proof (len_nonneg l); lia]. Qed.

Lemma slice_to_app {A} (l1 l2 : list A) : slice_to (len l1) (l1 ++ l2) = l1.
Proof.
  unfold slice_to, len. rewrite Nat2Z.id, firstn_app, Nat.sub_diag, firstn_all.
  simpl. apply app_nil_r.
Qed.

Lemma slice_from_app {A} (l1 l2 : list A) : slice_from (len l1) (l1 ++ l2) = l2.
Proof.
  unfold slice_from, len. rewrite Nat2Z.id, skipn_app, Nat.sub_diag, skipn_all.
  reflexivity.
Qed.

Lemma slice_to_all {A} (l : list A) : slice_to (len l) l = l.
Proof. unfold slice_to, len. rewrite Nat2Z.id. apply firstn_all. Qed.

Lemma slice_from_all {A} (l : list A) : slice_from (len l) l = [].
Proof. unfold slice_from, len. rewrite Nat2Z.id. apply skipn_all. Qed.

Lemma slice_from_1_cons {A} (a : A) (l : list A) : slice_from 1 (a :: l) = l.
Proof. reflexivity. Qed.

Lemma slice_from_slice_from {A} (a b : Z) (l : list A) :
  0 <= a -> 0 <= b -> slice_from b (slice_from a l) = slice_from (a + b) l.
Proof.
  intros Ha Hb. unfold slice_from. rewrite skipn_skipn. f_equal. lia.
Qed.

Lemma len_slice_from {A} (a : Z) (l : list A) :
  0 <= a <= len l -> len (slice_from a l) = len l - a.
Proof.
  intros H. unfold slice_from, len in *. rewrite length_skipn. lia.
Qed.

Lemma first_app (l1 l2 : list byte) : l1 <> [] -> first (l1 ++ l2) = first l1.
Proof. destruct l1; [congruence | reflexivity]. Qed.

Lemma be_acc (l : list byte) (acc : Z) :
  fold_left (fun a x => a * 256 + Zbyte x) l acc = acc * 256 ^ len l + be_uint l.
Proof.
  unfold be_uint. revert acc.
  induction l as [|x l IH]; intros acc.
  - simpl. change (len (@nil byte)) with 0. lia.
  - cbn [fold_left]. rewrite IH, (IH (0 * 256 + Zbyte x)), len_cons.
    rewrite Z.pow_add_r by (pose proof (len_nonneg l); lia). lia.
Qed.

Lemma be_uint_cons (x : byte) (l : list byte) :
  be_uint (x :: l) = Zbyte x * 256 ^ len l + be_uint l.
Proof.
  unfold be_uint at 1. cbn [fold_left]. rewrite be_acc. lia.
Qed.

Lemma be_uint_range (l : list byte) : 0 <= be_uint l < 256 ^ len l.
Proof.
  induction l as [|x l IH].
  - unfold be_uint, len. simpl. lia.
  - rewrite be_uint_cons, len_cons.
    rewrite Z.pow_add_r by (pose proof (len_nonneg l); lia).
    pose proof (Zbyte_range x). nia.
Qed.

Lemma len_be_bytes (n : nat) (i : Z) : len (be_bytes n i) = Z.of_nat n.
Proof.
  induction n as [|n IH]; [reflexivity|].
  cbn [be_bytes]. rewrite len_cons, IH. lia.
Qed.

Lemma pow256 (n : Z) : 0 <= n -> 256 ^ n = 2 ^ (8 * n).
Proof.
  intros H. change 256 with (2 ^ 8). rewrite <- Z.pow_mul_r by lia. reflexivity.
Qed.

Lemma be_uint_be_bytes (n : nat) (i : Z) :
  be_uint (be_bytes n i) = i mod 256 ^ Z.of_nat n.
Proof.
  induction n as [|n IH].
  - simpl. rewrite Z.mod_1_r. reflexivity.
  - cbn [be_bytes]. rewrite be_uint_cons, IH, len_be_bytes, Zbyte_byteZ.
    rewrite Z.shiftr_div_pow2 by lia.
    rewrite <- pow256 by lia.
    rewrite Nat2Z.inj_succ, Z.pow_succ_r by lia.
    rewrite (Z.mul_comm 256), Z.rem_mul_r by lia. lia.
Qed.

Lemma be_uint_be_bytes_small (n : nat) (i : Z) :
  0 <= i < 256 ^ Z.of_nat n -> be_uint (be_bytes n i) = i.
Proof.
  intros H. rewrite be_uint_be_bytes. apply Z.mod_small. exact H.
Qed.

(** The length in bytes of a positive integer and the bounds it gives. *)
Lemma byteLen_bounds (i : Z) :
  0 < i ->
  let n := Z.of_nat (big.byteLen i) in
  1 <= n /\ 256 ^ (n - 1) <= i < 256 ^ n.
Proof.
  intros Hi n. subst n. unfold big.byteLen.
  pose proof (Z.log2_nonneg i) as Hl.
  pose proof (Z.log2_spec i Hi) as [Hlo Hhi].
  assert (Hq : 0 <= Z.log2 i / 8) by (apply Z.div_pos; lia).
  rewrite Z2Nat.id by lia.
  split; [lia|].
  rewrite !pow256 by lia.
  pose proof (Z.mul_div_le (Z.log2 i) 8 ltac:(lia)) as H1.
  pose proof (Z.mul_succ_div_gt (Z.log2 i) 8 ltac:(lia)) as H2.
  split.
  - eapply Z.le_trans; [|exact Hlo]. apply Z.pow_le_mono_r; lia.
  - eapply Z.lt_le_trans; [exact Hhi|]. apply Z.pow_le_mono_r; lia.
Qed.

Lemma byteLen_unique (i k : Z) :
  1 <= k -> 256 ^ (k - 1) <= i < 256 ^ k -> Z.of_nat (big.byteLen i) = k.
Proof.
  intros Hk [Hlo Hhi].
  assert (Hi : 0 < i) by (pose proof (Z.pow_pos_nonneg 256 (k - 1)); lia).
  pose proof (byteLen_bounds i Hi) as [Hn [Hlo' Hhi']].
  set (n := Z.of_nat (big.byteLen i)) in *.
  destruct (Z.lt_trichotomy n k) as [Hlt | [Heq | Hgt]]; [exfalso | exact Heq | exfalso].
  - assert (256 ^ n <= 256 ^ (k - 1)) by (apply Z.pow_le_mono_r; lia). lia.
  - assert (256 ^ k <= 256 ^ (n - 1)) by (apply Z.pow_le_mono_r; lia). lia.
Qed.

Lemma first_be_bytes (n : nat) (i : Z) :
  Zbyte (first (be_bytes (S n) i)) = (i / 256 ^ Z.of_nat n) mod 256.
Proof.
  cbn [be_bytes]. unfold first. cbn [hd].
  rewrite Zbyte_byteZ, Z.shiftr_div_pow2, pow256 by lia. reflexivity.
Qed.

(** The minimal big-endian form of a positive integer: as long as its byte
    length, denoting the integer, and starting with a non-zero byte. *)
Lemma minimal_be (i : Z) :
  0 < i ->
  let s := be_bytes (big.byteLen i) i in
  len s = Z.of_nat (big.byteLen i) /\ 1 <= len s /\
  be_uint s = i /\ Zbyte (first s) <> 0 /\ s <> [].
Proof.
  intros Hi s. subst s.
  pose proof (byteLen_bounds i Hi) as [Hn [Hlo Hhi]]. cbv zeta in *.
  rewrite len_be_bytes.
  split; [reflexivity|]. split; [exact Hn|].
  split; [apply be_uint_be_bytes_small; lia|].
  destruct (big.byteLen i) as [|n] eqn:E; [lia|].
  split; [|discriminate].
  rewrite first_be_bytes.
  replace (Z.of_nat (S n) - 1) with (Z.of_nat n) in Hlo by lia.
  rewrite Nat2Z.inj_succ, Z.pow_succ_r in Hhi by lia.
  assert (Hp : 0 < 256 ^ Z.of_nat n) by (apply Z.pow_pos_nonneg; lia).
  assert (1 <= i / 256 ^ Z.of_nat n) by (apply Z.div_le_lower_bound; lia).
  assert (i / 256 ^ Z.of_nat n < 256) by (apply Z.div_lt_upper_bound; lia).
  rewrite Z.mod_small by lia. lia.
Qed.

(** ** [putint] and the byte length *)

Lemma putint_be_bytes (i : Z) :
  0 < i < 2 ^ 64 -> rlp.putint i = be_bytes (big.byteLen i) i.
Proof.
  intros [Hlo Hhi]. unfold rlp.putint.
  repeat match goal with
  | |- context [?a <? ?b] => destruct (Z.ltb_spec a b)
  end;
  match goal with
  | |- ?l = _ =>
      let k := eval cbv in (List.length l) in
      assert (Hk : big.byteLen i = k)
        by (apply Nat2Z.inj; apply byteLen_unique;
            [ cbv; discriminate
            | change (256 ^ (Z.of_nat k - 1)) with (2 ^ (8 * (Z.of_nat k - 1)));
              change (256 ^ Z.of_nat k) with (2 ^ (8 * Z.of_nat k));
              cbn [Z.of_nat Pos.of_succ_nat Pos.succ Z.sub Z.add Z.opp Z.pos_sub
                   Pos.pred_double Z.succ_double Z.pred_double Z.double Z.mul Pos.mul
                   Pos.add] in *; lia ]);
      rewrite Hk; reflexivity
  end.
Qed.

Lemma putint_minimal (i : Z) :
  0 < i < 2 ^ 64 ->
  let s := rlp.putint i in
  1 <= len s <= 8 /\ be_uint s = i /\ Zbyte (first s) <> 0 /\ s <> [].
Proof.
  intros Hi s. subst s. rewrite putint_be_bytes by exact Hi.
  pose proof (minimal_be i ltac:(lia)) as (Hlen & H1 & Hval & Hfirst & Hne).
  cbv zeta in *.
  repeat split; try assumption.
  rewrite Hlen.
  pose proof (byteLen_bounds i ltac:(lia)) as [_ [Hlo _]]. cbv zeta in Hlo.
  destruct (Z_le_gt_dec (Z.of_nat (big.byteLen i)) 8) as [Hle|Hgt]; [exact Hle|exfalso].
  assert (256 ^ 8 <= 256 ^ (Z.of_nat (big.byteLen i) - 1))
    by (apply Z.pow_le_mono_r; lia).
  change (256 ^ 8) with (2 ^ 64) in *. lia.
Qed.

(** With [i] below [256 ^ k] the minimal form has at most [k] bytes. *)
Lemma putint_len_le (i k : Z) :
  0 < i < 2 ^ 64 -> 0 <= k -> i < 256 ^ k -> len (rlp.putint i) <= k.
Proof.
  intros Hi Hk Hlt. rewrite putint_be_bytes by exact Hi.
  rewrite len_be_bytes.
  pose proof (byteLen_bounds i ltac:(lia)) as [_ [Hlo _]]. cbv zeta in Hlo.
  destruct (Z_le_gt_dec (Z.of_nat (big.byteLen i)) k) as [Hle|Hgt]; [exact Hle|exfalso].
  assert (256 ^ k <= 256 ^ (Z.of_nat (big.byteLen i) - 1))
    by (apply Z.pow_le_mono_r; lia).
  lia.
Qed.

(** ** The stream, step by step *)

Lemma readByte_cons (b : byte) (rest : list byte) (bv : byte) :
  rlp.readByte (rlp.mkStream (b :: rest) bv) = Ok (b, rlp.mkStream rest bv).
Proof.
  unfold rlp.readByte. cbn [rlp.r rlp.byteval]. rewrite len_cons.
  pose proof (len_nonneg rest).
  destruct (Z.ltb_spec (1 + len rest) 1); [lia | reflexivity].
Qed.

Lemma readByte_nil (bv : byte) :
  rlp.readByte (rlp.mkStream [] bv) = Err ErrValueTooLarge.
Proof. reflexivity. Qed.

Lemma readFull_app (l rest : list byte) (bv : byte) :
  rlp.readFull (len l) (rlp.mkStream (l ++ rest) bv) = Ok (l, rlp.mkStream rest bv).
Proof.
  unfold rlp.readFull. cbn [rlp.r rlp.byteval].
  rewrite len_app, slice_to_app, slice_from_app.
  pose proof (len_nonneg rest).
  destruct (Z.ltb_spec (len l + len rest) (len l)); [lia | reflexivity].
Qed.

Lemma readUint_minimal (i : Z) (rest : list byte) (bv : byte) :
  0 < i < 2 ^ 64 ->
  rlp.readUint (len (rlp.putint i)) (rlp.mkStream (rlp.putint i ++ rest) bv)
  = Ok (i, rlp.mkStream rest bv).
Proof.
  intros Hi.
  pose proof (putint_minimal i Hi) as (Hlen & Hval & Hfirst & Hne). cbv zeta in *.
  unfold rlp.readUint.
  destruct (Z.eqb_spec (len (rlp.putint i)) 0); [lia|].
  destruct (Z.eqb_spec (len (rlp.putint i)) 1) as [H1|H1].
  - destruct (rlp.putint i) as [|x [|y l]] eqn:E; try congruence.
    + cbn [app]. unfold rlp.bind. rewrite readByte_cons. unfold rlp.ret.
      rewrite be_uint_cons in Hval. change (len (@nil byte)) with 0 in Hval.
      unfold be_uint in Hval. simpl in Hval. repeat f_equal. lia.
    + rewrite !len_cons in H1. pose proof (len_nonneg l). lia.
  - destruct (Z.ltb_spec 8 (len (rlp.putint i))); [lia|].
    unfold rlp.bind. rewrite readFull_app.
    destruct (Z.eqb_spec (Zbyte (first (rlp.putint i))) 0); [contradiction|].
    unfold rlp.ret. rewrite Hval. reflexivity.
Qed.

Lemma readSize_minimal (i : Z) (rest : list byte) :
  56 <= i < 2 ^ 64 ->
  rlp.readSize (rlp.putint i ++ rest) (len (rlp.putint i)) = Ok i.
Proof.
  intros Hi.
  pose proof (putint_minimal i ltac:(lia)) as (Hlen & Hval & Hfirst & Hne).
  cbv zeta in *. unfold rlp.readSize.
  rewrite len_app. pose proof (len_nonneg rest).
  destruct (Z.ltb_spec (len (rlp.putint i) + len rest) (len (rlp.putint i))); [lia|].
  destruct (Z.leb_spec 1 (len (rlp.putint i))); [|lia].
  destruct (Z.leb_spec (len (rlp.putint i)) 8); [|lia].
  cbn [andb]. rewrite slice_to_app, Hval, first_app by exact Hne.
  destruct (Z.ltb_spec i 56); [lia|].
  destruct (Z.eqb_spec (Zbyte (first (rlp.putint i))) 0); [contradiction|].
  reflexivity.
Qed.

(** [readKind] of the stream by the range of the first byte. *)
Lemma readKind_nil (bv : byte) :
  rlp.readKind (rlp.mkStream [] bv) = Err io_EOF.
Proof. reflexivity. Qed.

Lemma readKind_cons (b : byte) (rest : list byte) (bv : byte) :
  rlp.readKind (rlp.mkStream (b :: rest) bv) =
  if Zbyte b <? 0x80 then Ok ((rlp.Byte, 0), rlp.mkStream rest b)
  else if Zbyte b <? 0xB8 then Ok ((rlp.String, Zbyte b - 0x80), rlp.mkStream rest Byte.x00)
  else if Zbyte b <? 0xC0 then
    match rlp.readUint (Zbyte b - 0xB7) (rlp.mkStream rest Byte.x00) with
    | Ok (size, s) => if size <? 56 then Err ErrCanonSize else Ok ((rlp.String, size), s)
    | Err e => Err e
    | Panic => Panic
    end
  else if Zbyte b <? 0xF8 then Ok ((rlp.List, Zbyte b - 0xC0), rlp.mkStream rest Byte.x00)
  else
    match rlp.readUint (Zbyte b - 0xF7) (rlp.mkStream rest Byte.x00) with
    | Ok (size, s) => if size <? 56 then Err ErrCanonSize else Ok ((rlp.List, size), s)
    | Err e => Err e
    | Panic => Panic
    end.
Proof.
  unfold rlp.readKind. rewrite readByte_cons.
  unfold rlp.bind, rlp.setByteval, rlp.ret, rlp.fail. cbn [rlp.r rlp.byteval].
  destruct (Zbyte b <? 0x80); [reflexivity|].
  destruct (Zbyte b <? 0xB8); [reflexivity|].
  destruct (Zbyte b <? 0xC0).
  - destruct (rlp.readUint _ _) as [[size s]|e|]; try reflexivity.
    destruct (size <? 56); reflexivity.
  - destruct (Zbyte b <? 0xF8); [reflexivity|].
    destruct (rlp.readUint _ _) as [[size s]|e|]; try reflexivity.
    destruct (size <? 56); reflexivity.
Qed.

(** [Kind] of the stream in terms of [readKind]. *)
Lemma StreamKind_eq (s : rlp.Stream) :
  rlp.StreamKind s =
  match rlp.readKind s with
  | Ok ((kind, size), s') =>
      if len (rlp.r s') <? size then Err ErrValueTooLarge else Ok ((kind, size), s')
  | Err e => Err e
  | Panic => Panic
  end.
Proof.
  unfold rlp.StreamKind, rlp.bind.
  destruct (rlp.readKind s) as [[[kind size] s']|e|]; reflexivity.
Qed.

(** ** The encoding of a byte string and its two readers *)

Lemma slice_from_succ_cons {A} (n : Z) (a : A) (l : list A) :
  0 <= n -> slice_from (1 + n) (a :: l) = slice_from n l.
Proof.
  intros H. unfold slice_from.
  replace (Z.to_nat (1 + n)) with (S (Z.to_nat n)) by lia. reflexivity.
Qed.

Lemma uint64_small (i : Z) : 0 <= i < 2 ^ 64 -> uint64 i = i.
Proof. intros H. unfold uint64. apply Z.mod_small. exact H. Qed.

Lemma readFull_all (l : list byte) (bv : byte) :
  rlp.readFull (len l) (rlp.mkStream l bv) = Ok (l, rlp.mkStream [] bv).
Proof.
  pose proof (readFull_app l [] bv) as H. rewrite app_nil_r in H. exact H.
Qed.

Lemma encodeString_cases (b : list byte) :
  len b < 2 ^ 64 -> encodedString b (rlp.encodeString b []).
Proof.
  intros Hb. unfold rlp.encodeString, rlp.encodeStringHeader.
  pose proof (len_nonneg b) as Hn.
  destruct (Z.eqb_spec (len b) 1) as [H1|H1];
    [destruct (Z.leb_spec (Zbyte (first b)) 0x7F) as [H7|H7]|]; cbn [andb app].
  - destruct b as [|x [|y l]].
    + discriminate H1.
    + apply enc_single; [reflexivity | exact H7].
    + rewrite !len_cons in H1. pose proof (len_nonneg l). lia.
  - destruct (Z.ltb_spec (len b) 56); [|lia]. cbn [app].
    apply enc_short; [lia | lia | rewrite Zbyte_byteZ_small; lia].
  - destruct (Z.ltb_spec (len b) 56); cbn [app].
    + apply enc_short; [lia | lia | rewrite Zbyte_byteZ_small; lia].
    + rewrite uint64_small by lia.
      pose proof (putint_minimal (len b) ltac:(lia)) as (Hlen & _). cbv zeta in Hlen.
      apply enc_long; [lia | rewrite Zbyte_byteZ_small; lia].
Qed.

Lemma Split_encoded (b w : list byte) :
  encodedString b w -> rlp.Split w = Ok (stringKind b, b, []).
Proof.
  intros H. pose proof (len_nonneg b) as Hn.
  destruct H as [x Hb Hx | h Hlen Hns Hh | h Hlen Hh].
  - subst b. unfold rlp.Split, rlp.rawReadKind, stringKind.
    pose proof (Zbyte_range x).
    destruct (Z.ltb_spec (Zbyte x) 0x80); [|lia].
    change (len [x]) with 1. cbn [first hd].
    destruct (Z.leb_spec (Zbyte x) 0x7F); [|lia]. reflexivity.
  - unfold rlp.Split, rlp.rawReadKind.
    destruct (Z.ltb_spec (Zbyte h) 0x80); [lia|].
    destruct (Z.ltb_spec (Zbyte h) 0xB8); [|lia].
    rewrite Hh, len_cons, slice_from_1_cons.
    replace (0x80 + len b - 0x80) with (len b) by lia.
    assert (Hc : (len b =? 1) && (1 <? 1 + len b) && (Zbyte (first b) <? 128) = false).
    { destruct (Z.eqb_spec (len b) 1); [|reflexivity].
      destruct (Z.ltb_spec (Zbyte (first b)) 128); [lia|].
      apply andb_false_r. }
    rewrite Hc.
    replace (1 + len b - 1) with (len b) by lia.
    rewrite uint64_small by lia.
    rewrite Z.ltb_irrefl, slice_to_all.
    rewrite slice_from_succ_cons by lia. rewrite slice_from_all.
    unfold stringKind.
    destruct (Z.eqb_spec (len b) 1); [|reflexivity].
    destruct (Z.leb_spec (Zbyte (first b)) 0x7F); [lia | reflexivity].
  - pose proof (putint_minimal (len b) ltac:(lia)) as (Hl & _). cbv zeta in Hl.
    unfold rlp.Split, rlp.rawReadKind.
    destruct (Z.ltb_spec (Zbyte h) 0x80); [lia|].
    destruct (Z.ltb_spec (Zbyte h) 0xB8); [lia|].
    destruct (Z.ltb_spec (Zbyte h) 0xC0); [|lia].
    rewrite slice_from_1_cons.
    replace (Zbyte h - 0xB7) with (len (rlp.putint (len b))) by lia.
    rewrite readSize_minimal by lia.
    rewrite len_cons, len_app.
    replace (1 + (len (rlp.putint (len b)) + len b) - (len (rlp.putint (len b)) + 1))
      with (len b) by lia.
    rewrite uint64_small by lia. rewrite Z.ltb_irrefl.
    rewrite (Z.add_comm _ 1) at 1.
    rewrite slice_from_succ_cons, slice_from_app, slice_to_all by lia.
    replace (len (rlp.putint (len b)) + 1 + len b)
      with (1 + len (rlp.putint (len b) ++ b)) by (rewrite len_app; lia).
    rewrite slice_from_succ_cons by apply len_nonneg.
    rewrite slice_from_all.
    unfold stringKind.
    destruct (Z.eqb_spec (len b) 1); [lia | reflexivity].
Qed.

Lemma Bytes_encoded (b w : list byte) (bv : byte) :
  encodedString b w ->
  exists bv', rlp.Bytes (rlp.mkStream w bv) = Ok (b, rlp.mkStream [] bv').
Proof.
  intros H. pose proof (len_nonneg b) as Hn.
  unfold rlp.Bytes, rlp.bind. rewrite StreamKind_eq.
  destruct H as [x Hb Hx | h Hlen Hns Hh | h Hlen Hh]; rewrite readKind_cons.
  - subst b. destruct (Z.ltb_spec (Zbyte x) 0x80); [|lia].
    cbn [rlp.r rlp.byteval]. change (len (@nil byte) <? 0) with false.
    cbv iota beta. eexists. reflexivity.
  - destruct (Z.ltb_spec (Zbyte h) 0x80); [lia|].
    destruct (Z.ltb_spec (Zbyte h) 0xB8); [|lia].
    cbn [rlp.r]. replace (Zbyte h - 0x80) with (len b) by lia.
    rewrite Z.ltb_irrefl. cbv iota beta.
    rewrite readFull_all.
    assert (Hc : (len b =? 1) && (Zbyte (first b) <? 128) = false).
    { destruct (Z.eqb_spec (len b) 1); [|reflexivity].
      destruct (Z.ltb_spec (Zbyte (first b)) 128); [lia | reflexivity]. }
    rewrite Hc. eexists. reflexivity.
  - pose proof (putint_minimal (len b) ltac:(lia)) as (Hl & _). cbv zeta in Hl.
    destruct (Z.ltb_spec (Zbyte h) 0x80); [lia|].
    destruct (Z.ltb_spec (Zbyte h) 0xB8); [lia|].
    destruct (Z.ltb_spec (Zbyte h) 0xC0); [|lia].
    replace (Zbyte h - 0xB7) with (len (rlp.putint (len b))) by lia.
    rewrite readUint_minimal by lia.
    destruct (Z.ltb_spec (len b) 56); [lia|].
    cbn [rlp.r]. rewrite Z.ltb_irrefl. cbv iota beta.
    rewrite readFull_all.
    destruct (Z.eqb_spec (len b) 1); [lia|]. cbn [andb].
    eexists. reflexivity.
Qed.

(** ** Unsigned integers and big integers through the envelope *)

Lemma be_uint_single (x : byte) : be_uint [x] = Zbyte x.
Proof. unfold be_uint. cbn [fold_left]. lia. Qed.

Lemma putint_small (i : Z) : 0 <= i < 2 ^ 8 -> rlp.putint i = [byteZ i].
Proof.
  intros H. unfold rlp.putint. destruct (Z.ltb_spec i (2 ^ 8)); [reflexivity | lia].
Qed.

(** A positive [uint64] is written as the encoding of its minimal form. *)
Lemma writeUint_encoded (i : Z) :
  0 < i < 2 ^ 64 ->
  exists w, rlp.writeUint i [] = Ok w /\ encodedString (rlp.putint i) w.
Proof.
  intros Hi. unfold rlp.writeUint.
  pose proof (putint_minimal i Hi) as (Hlen & Hval & Hfirst & Hne). cbv zeta in *.
  destruct (Z.eqb_spec i 0); [lia|].
  destruct (Z.ltb_spec i 128) as [Hs|Hs]; cbn [app]; eexists; (split; [reflexivity|]).
  - rewrite putint_small by (change (2 ^ 8) with 256; lia).
    apply enc_single; [reflexivity | rewrite Zbyte_byteZ_small; lia].
  - apply enc_short; [lia | | rewrite Zbyte_byteZ_small; lia].
    intros [H1 H7].
    destruct (rlp.putint i) as [|x [|y l]] eqn:E.
    + discriminate H1.
    + rewrite be_uint_single in Hval. cbn [first hd] in H7. lia.
    + rewrite !len_cons in H1. pose proof (len_nonneg l). lia.
Qed.

Lemma uint_encoded (i maxbits : Z) (w : list byte) (bv : byte) :
  0 < i < 2 ^ 64 ->
  len (rlp.putint i) <= maxbits / 8 ->
  encodedString (rlp.putint i) w ->
  exists bv', rlp.uint maxbits (rlp.mkStream w bv) = Ok (i, rlp.mkStream [] bv').
Proof.
  intros Hi Hmax H.
  pose proof (putint_minimal i Hi) as (Hlen & Hval & Hfirst & Hne). cbv zeta in *.
  unfold rlp.uint, rlp.bind. rewrite StreamKind_eq.
  destruct H as [x Hb Hx | h Hl Hns Hh | h Hl Hh]; [| |lia]; rewrite readKind_cons.
  - destruct (Z.ltb_spec (Zbyte x) 0x80); [|lia].
    cbn [rlp.r rlp.byteval]. change (len (@nil byte) <? 0) with false.
    cbv iota beta.
    rewrite Hb in Hval, Hfirst. cbn [first hd] in Hfirst.
    rewrite be_uint_single in Hval. cbn [rlp.byteval].
    destruct (Z.eqb_spec (Zbyte x) 0); [contradiction|].
    eexists. rewrite Hval. reflexivity.
  - destruct (Z.ltb_spec (Zbyte h) 0x80); [lia|].
    destruct (Z.ltb_spec (Zbyte h) 0xB8); [|lia].
    cbn [rlp.r]. replace (Zbyte h - 0x80) with (len (rlp.putint i)) by lia.
    rewrite Z.ltb_irrefl. cbv iota beta.
    destruct (Z.ltb_spec (maxbits / 8) (len (rlp.putint i))); [lia|].
    rewrite Zbyte_byteZ_small by lia.
    pose proof (readUint_minimal i [] bv) as Hr. rewrite app_nil_r in Hr.
    pose proof (readUint_minimal i [] Byte.x00 Hi) as Hr0. rewrite app_nil_r in Hr0.
    rewrite Hr0.
    destruct (Z.ltb_spec 0 (len (rlp.putint i))); [|lia].
    destruct (Z.ltb_spec i 128) as [Hs|Hs]; cbn [andb].
    + exfalso. apply Hns.
      rewrite putint_small in * by (change (2 ^ 8) with 256; lia).
      split; [reflexivity|]. cbn [first hd]. rewrite Zbyte_byteZ_small; lia.
    + eexists. reflexivity.
Qed.

Lemma Bits_cases (k : uintKind) :
  Bits k / 8 = 1 \/ Bits k / 8 = 2 \/ Bits k / 8 = 4 \/ Bits k / 8 = 8.
Proof. destruct k; cbv; auto. Qed.

Lemma Bits_pow (k : uintKind) : 2 ^ Bits k = 256 ^ (Bits k / 8) /\ 2 ^ Bits k <= 2 ^ 64.
Proof. destruct k; split; cbv; congruence. Qed.

(** A positive unsigned integer of kind [k]: encoded, then decoded. *)
Lemma decodeUint_writeUint (k : uintKind) (i : Z) :
  0 < i < 2 ^ Bits k ->
  exists w, rlp.EncodeToBytes (rlp.EUint64 i) = Ok w /\
            encodedString (rlp.putint i) w /\
            rlp.DecodeBytes (rlp.TUint k) w (Some 0) = Ok i.
Proof.
  intros Hi. pose proof (Bits_pow k) as [Hp Hle].
  destruct (writeUint_encoded i ltac:(lia)) as (w & Hw & Henc).
  exists w. split; [exact Hw|]. split; [exact Henc|].
  assert (Hmax : len (rlp.putint i) <= Bits k / 8).
  { apply putint_len_le; [lia | destruct (Bits_cases k) as [H|[H|[H|H]]]; lia | lia]. }
  destruct (uint_encoded i (Bits k) w Byte.x00 ltac:(lia) Hmax Henc) as (bv' & Hu).
  unfold rlp.DecodeBytes, rlp.Decode, rlp.decoder, rlp.decodeUint, rlp.wrapped.
  rewrite Hu. reflexivity.
Qed.

Lemma big_Bytes_positive (i : Z) :
  0 < i -> big.Bytes i = be_bytes (big.byteLen i) i.
Proof.
  intros Hi. unfold big.Bytes. rewrite Z.abs_eq by lia.
  destruct (Z.eqb_spec i 0); [lia | reflexivity].
Qed.

Lemma decodeBigInt_writeBigInt (i : Z) :
  0 < i -> len (big.Bytes i) < 2 ^ 63 ->
  exists w, rlp.EncodeToBytes (rlp.EPBigInt (Some i)) = Ok w /\
            encodedString (big.Bytes i) w /\
            rlp.DecodeBytes rlp.TBigInt w (Some 0) = Ok i.
Proof.
  intros Hi Hlen.
  assert (H64 : len (big.Bytes i) < 2 ^ 64) by (change (2 ^ 63) with 9223372036854775808 in Hlen; change (2 ^ 64) with 18446744073709551616; lia).
  pose proof (encodeString_cases (big.Bytes i) H64) as Henc.
  exists (rlp.encodeString (big.Bytes i) []).
  split.
  - unfold rlp.EncodeToBytes, rlp.encode, rlp.writeBigIntPtr, rlp.writeBigInt, big.Cmp.
    destruct (Z.compare_spec i 0); try lia. reflexivity.
  - split; [exact Henc|].
    destruct (Bytes_encoded _ _ Byte.x00 Henc) as (bv' & Hb).
    unfold rlp.DecodeBytes, rlp.Decode, rlp.decoder, rlp.decodeBigInt, rlp.wrapped, rlp.bind.
    rewrite Hb.
    rewrite big_Bytes_positive by exact Hi.
    pose proof (minimal_be i Hi) as (Hl & H1 & Hval & Hfirst & Hne). cbv zeta in *.
    destruct (Z.eqb_spec (Zbyte (first (be_bytes (big.byteLen i) i))) 0); [contradiction|].
    rewrite andb_false_r. unfold rlp.ret, big.SetBytes. cbn [rlp.r].
    rewrite Hval. reflexivity.
Qed.

Lemma decodeString_writeString (s : string) :
  len (list_byte_of_string s) < 2 ^ 63 ->
  exists w, rlp.EncodeToBytes (rlp.EString s) = Ok w /\
            encodedString (list_byte_of_string s) w /\
            rlp.DecodeBytes rlp.TString w (Some ""%string) = Ok s.
Proof.
  intros Hlen.
  assert (H64 : len (list_byte_of_string s) < 2 ^ 64) by (change (2 ^ 63) with 9223372036854775808 in Hlen; change (2 ^ 64) with 18446744073709551616; lia).
  pose proof (encodeString_cases _ H64) as Henc.
  exists (rlp.encodeString (list_byte_of_string s) []).
  split.
  - unfold rlp.EncodeToBytes, rlp.encode, rlp.writeString, rlp.encodeString.
    destruct (_ && _); reflexivity.
  - split; [exact Henc|].
    destruct (Bytes_encoded _ _ Byte.x00 Henc) as (bv' & Hb).
    unfold rlp.DecodeBytes, rlp.Decode, rlp.decoder, rlp.decodeString, rlp.wrapped, rlp.bind.
    rewrite Hb. unfold rlp.ret. cbn [rlp.r].
    rewrite string_of_list_byte_of_string. reflexivity.
Qed.

(** ** The codec over the envelope *)

Lemma encoded_nonempty (b w : list byte) :
  encodedString b w -> (len w =? 0) = false.
Proof.
  intros H. apply Z.eqb_neq.
  destruct H; rewrite len_cons;
    match goal with |- 1 + len ?l <> 0 => pose proof (len_nonneg l); lia end.
Qed.

Lemma leadingZeros_range (bs : list byte) :
  0 <= leadingZeros bs <= len bs.
Proof.
  induction bs as [|b bs IH]; [cbv; split; discriminate|].
  cbn [leadingZeros]. rewrite len_cons.
  destruct (Byte.eqb b Byte.x00); lia.
Qed.

Lemma leadingZeros_split (bs : list byte) :
  bs = repeat Byte.x00 (Z.to_nat (leadingZeros bs)) ++ slice_from (leadingZeros bs) bs.
Proof.
  induction bs as [|b bs IH]; [reflexivity|].
  cbn [leadingZeros]. pose proof (leadingZeros_range bs) as Hr.
  destruct (Byte.eqb b Byte.x00) eqn:E.
  - apply Byte.byte_dec_bl in E. subst b.
    rewrite slice_from_succ_cons by lia.
    replace (Z.to_nat (1 + leadingZeros bs)) with (S (Z.to_nat (leadingZeros bs))) by lia.
    cbn [repeat app]. f_equal. exact IH.
  - reflexivity.
Qed.

Lemma zeroBytes_prefix (n z : Z) :
  0 <= z <= n -> slice_to z (thor.zeroBytes n) = repeat Byte.x00 (Z.to_nat z).
Proof.
  intros H. unfold slice_to, thor.zeroBytes.
  replace (Z.to_nat n) with (Z.to_nat z + (Z.to_nat n - Z.to_nat z))%nat by lia.
  rewrite repeat_app, firstn_app, repeat_length, Nat.sub_diag, firstn_all2
    by (rewrite repeat_length; lia).
  cbn [firstn]. apply app_nil_r.
Qed.

(** Writing the trimmed bytes over a zeroed array gives the array back. *)
Lemma SetBytes_trimmed (n : Z) (h : list byte) :
  len h = n ->
  common.SetBytes n (thor.zeroBytes n) (slice_from (leadingZeros h) h) = h.
Proof.
  intros Hn. pose proof (leadingZeros_range h) as Hr.
  assert (Ht : len (slice_from (leadingZeros h) h) = len h - leadingZeros h)
    by (apply len_slice_from; lia).
  unfold common.SetBytes. cbv zeta.
  destruct (Z.ltb_spec n (len (slice_from (leadingZeros h) h))); [lia|].
  rewrite Ht.
  replace (n - (len h - leadingZeros h)) with (leadingZeros h) by lia.
  rewrite zeroBytes_prefix by lia.
  symmetry. apply leadingZeros_split.
Qed.

Lemma all_zero_trimmed (n : Z) (h : list byte) :
  len h = n -> len (slice_from (leadingZeros h) h) = 0 -> h = thor.zeroBytes n.
Proof.
  intros Hn Ht. pose proof (leadingZeros_range h) as Hr.
  rewrite len_slice_from in Ht by lia.
  rewrite (leadingZeros_split h) at 1.
  rewrite (len_zero_nil (slice_from (leadingZeros h) h))
    by (rewrite len_slice_from; lia).
  rewrite app_nil_r. unfold thor.zeroBytes. f_equal. lia.
Qed.

(** A fixed-size value of [n] bytes: what the encoder returns, and what
    the two decoding steps make of it on a zeroed array. *)
Lemma roundtrip_fixed (n : Z) (h : list byte) :
  len h = n -> n < 56 ->
  exists data,
    encodeBytesTrimmed h = Ok data /\
    if len data =? 0 then h = thor.zeroBytes n
    else exists k content,
        rlp.Split data = Ok (k, content, []) /\
        common.SetBytes n (thor.zeroBytes n) content = h.
Proof.
  intros Hn H56. unfold encodeBytesTrimmed.
  pose proof (leadingZeros_range h) as Hr.
  set (t := slice_from (leadingZeros h) h).
  destruct (Z.eqb_spec (len t) 0) as [H0|H0].
  - exists []. split; [reflexivity|].
    change (len (@nil byte) =? 0) with true. cbv iota.
    apply all_zero_trimmed; assumption.
  - assert (Hlt : len t < 2 ^ 64).
    { subst t. rewrite len_slice_from by lia.
      change (2 ^ 64) with 18446744073709551616. lia. }
    pose proof (encodeString_cases t Hlt) as Henc.
    exists (rlp.encodeString t []). split; [reflexivity|].
    rewrite (encoded_nonempty _ _ Henc).
    exists (stringKind t), t. split; [apply Split_encoded; exact Henc|].
    apply SetBytes_trimmed. exact Hn.
Qed.

Lemma roundtrip_value_form (val : value) :
  hasBothForms val = true -> wf val ->
  exists data,
    encodeStorage val = Ok data /\ decodeStorage data (fresh val) = Ok (pointerTo val).
Proof.
  destruct val; intros H Hwf; try discriminate H; cbn [wf] in Hwf;
    unfold fresh; cbn [pointerTo zeroOf encodeStorage decodeStorage].
  - (* thor.Bytes32 *)
    destruct (roundtrip_fixed 32 v Hwf ltac:(lia)) as (data & He & Hd).
    exists data. split; [exact He|].
    destruct (len data =? 0).
    + subst v. reflexivity.
    + destruct Hd as (k & content & Hs & Hset).
      cbn [rlp_Split geth]. rewrite Hs. cbn [omap deref].
      unfold common.HashLength. rewrite Hset. reflexivity.
  - (* thor.Address *)
    destruct (roundtrip_fixed 20 v Hwf ltac:(lia)) as (data & He & Hd).
    exists data. split; [exact He|].
    destruct (len data =? 0).
    + subst v. reflexivity.
    + destruct Hd as (k & content & Hs & Hset).
      cbn [rlp_Split geth]. rewrite Hs. cbn [omap deref].
      unfold common.AddressLength. rewrite Hset. reflexivity.
  - (* string *)
    unfold encodeString. destruct (String.eqb_spec v "") as [E|E].
    + subst v. exists []. split; reflexivity.
    + destruct (decodeString_writeString v Hwf) as (w & Hw & Henc & Hdec).
      exists w. cbn [rlp_EncodeToBytes rlp_DecodeBytes geth].
      split; [exact Hw|].
      rewrite (encoded_nonempty _ _ Henc), Hdec. reflexivity.
  - (* unsigned integers *)
    pose proof (Bits_pow k) as [_ Hle].
    rewrite uint64_small by lia. unfold encodeUint.
    destruct (Z.eqb_spec v 0) as [E|E].
    + subst v. exists []. split; reflexivity.
    + destruct (decodeUint_writeUint k v ltac:(lia)) as (w & Hw & Henc & Hdec).
      exists w. cbn [rlp_EncodeToBytes rlp_DecodeBytes geth].
      split; [exact Hw|].
      rewrite (encoded_nonempty _ _ Henc), Hdec. reflexivity.
  - (* bool *)
    destruct v.
    + exists [Byte.x01]. split; reflexivity.
    + exists []. split; reflexivity.
Qed.

Lemma roundtrip_big (i : Z) :
  0 <= i -> len (big.Bytes i) < 2 ^ 63 ->
  exists data,
    encodeStorage (PBigInt (Some i)) = Ok data /\
    decodeStorage data (PBigInt (Some 0)) = Ok (PBigInt (Some i)).
Proof.
  intros Hi Hlen. cbn [encodeStorage decodeStorage deref]. unfold big.Sign.
  destruct (Z.eqb_spec (Z.sgn i) 0) as [E|E].
  - assert (E0 : i = 0) by (apply Z.sgn_null_iff; exact E).
    rewrite E0. exists []. split; reflexivity.
  - assert (Hpos : 0 < i) by (pose proof (Z.sgn_null_iff i); lia).
    destruct (decodeBigInt_writeBigInt i Hpos Hlen) as (w & Hw & Henc & Hdec).
    exists w. cbn [rlp_EncodeToBytes rlp_DecodeBytes geth].
    split; [exact Hw|].
    rewrite (encoded_nonempty _ _ Henc), Hdec. reflexivity.
Qed.

Lemma encode_negative_big (i : Z) :
  i < 0 ->
  encodeStorage (PBigInt (Some i))
  = Err (errorString "rlp: cannot encode negative *big.Int").
Proof.
  intros Hi. cbn [encodeStorage deref]. unfold big.Sign.
  destruct (Z.eqb_spec (Z.sgn i) 0) as [E|E].
  - assert (E0 : i = 0) by (apply Z.sgn_null_iff; exact E). lia.
  - cbn [rlp_EncodeToBytes geth].
    unfold rlp.EncodeToBytes, rlp.encode, rlp.writeBigIntPtr, rlp.writeBigInt, big.Cmp.
    destruct (Z.compare_spec i 0); try lia. reflexivity.
Qed.

(** ** What the stream accepts, [Split] accepts *)

Lemma first_slice_to (n : Z) (l : list byte) :
  1 <= n -> first (slice_to n l) = first l.
Proof.
  intros Hn. unfold slice_to.
  destruct (Z.to_nat n) as [|m] eqn:E; [lia|].
  destruct l; reflexivity.
Qed.

Lemma slice_to_1 (l : list byte) : 1 <= len l -> slice_to 1 l = [first l].
Proof.
  destruct l as [|x l]; [cbv; intros H; exfalso; apply H; reflexivity | reflexivity].
Qed.

Lemma readUint_sound (n : Z) (rest : list byte) (bv : byte) (size : Z) (s' : rlp.Stream) :
  1 <= n <= 8 ->
  rlp.readUint n (rlp.mkStream rest bv) = Ok (size, s') ->
  n <= len rest /\ s' = rlp.mkStream (slice_from n rest) bv /\
  size = be_uint (slice_to n rest) /\ (56 <= size -> Zbyte (first rest) <> 0).
Proof.
  intros Hn. unfold rlp.readUint.
  destruct (Z.eqb_spec n 0); [lia|].
  destruct (Z.eqb_spec n 1) as [H1|H1].
  - subst n. unfold rlp.bind, rlp.ret.
    destruct rest as [|b rest].
    + rewrite readByte_nil. discriminate.
    + rewrite readByte_cons. intros Heq. injection Heq as <- <-.
      rewrite len_cons. pose proof (len_nonneg rest).
      split; [lia|]. split; [reflexivity|]. split.
      * change (slice_to 1 (b :: rest)) with [b]. rewrite be_uint_single. reflexivity.
      * cbn [first hd]. lia.
  - destruct (Z.ltb_spec 8 n); [lia|].
    unfold rlp.bind, rlp.readFull, rlp.fail, rlp.ret. cbn [rlp.r rlp.byteval].
    destruct (Z.ltb_spec (len rest) n); [discriminate|].
    rewrite first_slice_to by lia.
    destruct (Z.eqb_spec (Zbyte (first rest)) 0); [discriminate|].
    intros Heq. injection Heq as <- <-.
    split; [lia|]. split; [reflexivity|]. split; [reflexivity|]. intros _. assumption.
Qed.

Lemma readUint_no_panic (n : Z) (s : rlp.Stream) :
  n <= 8 -> rlp.readUint n s <> Panic.
Proof.
  intros Hn. unfold rlp.readUint.
  destruct (n =? 0); [discriminate|].
  destruct (n =? 1).
  - unfold rlp.bind, rlp.readByte, rlp.ret.
    destruct (len (rlp.r s) <? 1); [discriminate|].
    destruct (rlp.r s); discriminate.
  - destruct (Z.ltb_spec 8 n); [lia|].
    unfold rlp.bind, rlp.readFull, rlp.fail, rlp.ret.
    destruct (len (rlp.r s) <? n); [discriminate|].
    destruct (Zbyte _ =? 0); discriminate.
Qed.

Lemma readSize_of_readUint (n : Z) (rest : list byte) (bv : byte) (size : Z)
    (s' : rlp.Stream) :
  1 <= n <= 8 -> 56 <= size ->
  rlp.readUint n (rlp.mkStream rest bv) = Ok (size, s') ->
  rlp.readSize rest n = Ok size.
Proof.
  intros Hn H56 Hr.
  destruct (readUint_sound _ _ _ _ _ Hn Hr) as (Hlen & _ & Hsize & Hfirst).
  unfold rlp.readSize.
  destruct (Z.ltb_spec (len rest) n); [lia|].
  destruct (Z.leb_spec 1 n); [|lia]. destruct (Z.leb_spec n 8); [|lia].
  cbn [andb]. rewrite <- Hsize.
  destruct (Z.ltb_spec size 56); [lia|].
  destruct (Z.eqb_spec (Zbyte (first rest)) 0); [apply Hfirst in H56; contradiction|].
  reflexivity.
Qed.

Lemma readKind_no_panic (s : rlp.Stream) : rlp.readKind s <> Panic.
Proof.
  destruct s as [[|b rest] bv]; [rewrite readKind_nil; discriminate|].
  rewrite readKind_cons. pose proof (Zbyte_range b).
  destruct (Z.ltb_spec (Zbyte b) 0x80); [discriminate|].
  destruct (Z.ltb_spec (Zbyte b) 0xB8); [discriminate|].
  destruct (Z.ltb_spec (Zbyte b) 0xC0).
  - pose proof (readUint_no_panic (Zbyte b - 0xB7) (rlp.mkStream rest Byte.x00) ltac:(lia)).
    destruct (rlp.readUint _ _) as [[size s']|e|]; [|discriminate|contradiction].
    destruct (size <? 56); discriminate.
  - destruct (Z.ltb_spec (Zbyte b) 0xF8); [discriminate|].
    pose proof (readUint_no_panic (Zbyte b - 0xF7) (rlp.mkStream rest Byte.x00) ltac:(lia)).
    destruct (rlp.readUint _ _) as [[size s']|e|]; [|discriminate|contradiction].
    destruct (size <? 56); discriminate.
Qed.

Lemma StreamKind_no_panic (s : rlp.Stream) : rlp.StreamKind s <> Panic.
Proof.
  rewrite StreamKind_eq. pose proof (readKind_no_panic s).
  destruct (rlp.readKind s) as [[[k size] s']|e|]; [|discriminate|contradiction].
  destruct (_ <? _); discriminate.
Qed.

(** The kind the stream reports at the start of [data], against [readKind]
    of raw.go on the same input. The one difference: a one-byte string
    whose byte is below 128 is refused by raw.go at once and by the stream's
    readers after the read. *)
Lemma StreamKind_sound (data : list byte) (bv : byte) (k : rlp.Kind) (size : Z)
    (s' : rlp.Stream) :
  len data < 2 ^ 63 ->
  rlp.StreamKind (rlp.mkStream data bv) = Ok ((k, size), s') ->
  (k = rlp.Byte /\ size = 0 /\ data = rlp.byteval s' :: rlp.r s' /\
   rlp.rawReadKind data = Ok (rlp.Byte, 0, 1)) \/
  (k <> rlp.Byte /\
   exists ts, 1 <= ts <= len data /\ rlp.r s' = slice_from ts data /\
     0 <= size <= len data - ts /\
     (rlp.rawReadKind data = Ok (k, ts, size) \/
      (k = rlp.String /\ size = 1 /\ Zbyte (first (rlp.r s')) < 128))).
Proof.
  intros Hlen. change (2 ^ 63) with 9223372036854775808 in Hlen.
  assert (H64 : forall x, 0 <= x <= len data -> uint64 x = x).
  { intros x Hx. apply uint64_small. change (2 ^ 64) with 18446744073709551616. lia. }
  rewrite StreamKind_eq.
  destruct data as [|b rest]; [rewrite readKind_nil; discriminate|].
  rewrite readKind_cons. pose proof (Zbyte_range b) as Hb.
  pose proof (len_nonneg rest) as Hrest.
  rewrite len_cons in *.
  unfold rlp.rawReadKind.
  destruct (Z.ltb_spec (Zbyte b) 0x80).
  { cbn [rlp.r]. destruct (Z.ltb_spec (len rest) 0); [lia|].
    intros Heq. injection Heq as <- <- <-. left.
    repeat split. rewrite len_cons, H64 by (rewrite ?len_cons; lia).
    destruct (Z.ltb_spec (1 + len rest - 0) 1); [lia | reflexivity]. }
  destruct (Z.ltb_spec (Zbyte b) 0xB8).
  { cbn [rlp.r]. destruct (Z.ltb_spec (len rest) (Zbyte b - 0x80)); [discriminate|].
    intros Heq. injection Heq as <- <- <-. right. split; [discriminate|].
    exists 1. cbn [rlp.r]. rewrite slice_from_1_cons, len_cons.
    repeat split; try lia.
    destruct (Z.eqb_spec (Zbyte b - 0x80) 1) as [E1|E1]; cbn [andb].
    - destruct (Z.ltb_spec 1 (1 + len rest)); [|lia]. cbn [andb].
      destruct (Z.ltb_spec (Zbyte (first rest)) 128).
      + right. repeat split; assumption.
      + left. rewrite H64 by lia.
        destruct (Z.ltb_spec (1 + len rest - 1) (Zbyte b - 0x80)); [lia | reflexivity].
    - left. rewrite H64 by lia.
      destruct (Z.ltb_spec (1 + len rest - 1) (Zbyte b - 0x80)); [lia | reflexivity]. }
  destruct (Z.ltb_spec (Zbyte b) 0xC0).
  { destruct (rlp.readUint _ _) as [[sz s1]|e|] eqn:Hr; try discriminate.
    destruct (Z.ltb_spec sz 56); [discriminate|].
    destruct (Z.ltb_spec (len (rlp.r s1)) sz); [discriminate|].
    intros Heq. injection Heq as <- <- <-. right. split; [discriminate|].
    assert (Hrange : 1 <= Zbyte b - 0xB7 <= 8) by lia.
    destruct (readUint_sound _ _ _ _ _ Hrange Hr) as (Hn & Hs1 & _ & _).
    assert (H56 : 56 <= sz) by lia.
    rewrite slice_from_1_cons, (readSize_of_readUint _ _ _ _ _ Hrange H56 Hr).
    subst s1. cbn [rlp.r] in *. rewrite len_slice_from in * by lia.
    exists (Zbyte b - 0xB7 + 1).
    rewrite (Z.add_comm _ 1), slice_from_succ_cons by lia.
    repeat split; try lia.
    left. rewrite len_cons, H64 by lia.
    destruct (Z.ltb_spec (1 + len rest - (1 + (Zbyte b - 0xB7))) sz); [lia | reflexivity]. }
  destruct (Z.ltb_spec (Zbyte b) 0xF8).
  { cbn [rlp.r]. destruct (Z.ltb_spec (len rest) (Zbyte b - 0xC0)); [discriminate|].
    intros Heq. injection Heq as <- <- <-. right. split; [discriminate|].
    exists 1. cbn [rlp.r]. rewrite slice_from_1_cons, len_cons.
    repeat split; try lia.
    left. rewrite H64 by lia.
    destruct (Z.ltb_spec (1 + len rest - 1) (Zbyte b - 0xC0)); [lia | reflexivity]. }
  { destruct (rlp.readUint _ _) as [[sz s1]|e|] eqn:Hr; try discriminate.
    destruct (Z.ltb_spec sz 56); [discriminate|].
    destruct (Z.ltb_spec (len (rlp.r s1)) sz); [discriminate|].
    intros Heq. injection Heq as <- <- <-. right. split; [discriminate|].
    assert (Hrange : 1 <= Zbyte b - 0xF7 <= 8) by lia.
    destruct (readUint_sound _ _ _ _ _ Hrange Hr) as (Hn & Hs1 & _ & _).
    assert (H56 : 56 <= sz) by lia.
    rewrite slice_from_1_cons, (readSize_of_readUint _ _ _ _ _ Hrange H56 Hr).
    subst s1. cbn [rlp.r] in *. rewrite len_slice_from in * by lia.
    exists (Zbyte b - 0xF7 + 1).
    rewrite (Z.add_comm _ 1), slice_from_succ_cons by lia.
    repeat split; try lia.
    left. rewrite len_cons, H64 by lia.
    destruct (Z.ltb_spec (1 + len rest - (1 + (Zbyte b - 0xF7))) sz); [lia | reflexivity]. }
Qed.

Lemma Split_of_rawReadKind (data : list byte) (k : rlp.Kind) (ts cs : Z) :
  rlp.rawReadKind data = Ok (k, ts, cs) ->
  rlp.Split data = Ok (k, slice_to cs (slice_from ts data), slice_from (ts + cs) data).
Proof. intros H. unfold rlp.Split. rewrite H. reflexivity. Qed.

Lemma Split_no_panic (data : list byte) : rlp.Split data <> Panic.
Proof.
  assert (Hs : forall b n, rlp.readSize b n <> Panic).
  { intros b n. unfold rlp.readSize.
    destruct (_ <? _); [discriminate|]. destruct (_ || _); discriminate. }
  unfold rlp.Split, rlp.rawReadKind.
  destruct data as [|b rest]; [discriminate|].
  destruct (Zbyte b <? 0x80); [destruct (_ <? _); discriminate|].
  destruct (Zbyte b <? 0xB8).
  { destruct (_ && _); [discriminate|]. destruct (_ <? _); discriminate. }
  destruct (Zbyte b <? 0xC0).
  { pose proof (Hs (slice_from 1 (b :: rest)) (Zbyte b - 0xB7)).
    destruct (rlp.readSize _ _); [|discriminate|contradiction].
    destruct (_ <? _); discriminate. }
  destruct (Zbyte b <? 0xF8); [destruct (_ <? _); discriminate|].
  pose proof (Hs (slice_from 1 (b :: rest)) (Zbyte b - 0xF7)).
  destruct (rlp.readSize _ _); [|discriminate|contradiction].
  destruct (_ <? _); discriminate.
Qed.

Lemma Bytes_sound (data : list byte) (bv : byte) (b : list byte) (s' : rlp.Stream) :
  len data < 2 ^ 63 ->
  rlp.Bytes (rlp.mkStream data bv) = Ok (b, s') ->
  exists k, k <> rlp.List /\ rlp.Split data = Ok (k, b, rlp.r s').
Proof.
  intros Hlen. unfold rlp.Bytes, rlp.bind.
  destruct (rlp.StreamKind _) as [[[k size] s1]|e|] eqn:Hk; try discriminate.
  destruct (StreamKind_sound _ _ _ _ _ Hlen Hk)
    as [(-> & -> & Hdata & Hraw) | (Hnb & ts & Hts & Hr & Hsize & Hraw)].
  - intros Heq. injection Heq as <- <-.
    exists rlp.Byte. split; [discriminate|].
    rewrite (Split_of_rawReadKind _ _ _ _ Hraw). rewrite Hdata. reflexivity.
  - destruct k; [contradiction| |discriminate].
    unfold rlp.readFull, rlp.fail, rlp.ret.
    assert (Hl1 : len (rlp.r s1) = len data - ts)
      by (rewrite Hr; apply len_slice_from; lia).
    destruct (Z.ltb_spec (len (rlp.r s1)) size); [discriminate|].
    cbv iota beta.
    destruct (Z.eqb_spec size 1) as [E1|E1]; cbn [andb].
    + rewrite first_slice_to by lia.
      destruct (Z.ltb_spec (Zbyte (first (rlp.r s1))) 128) as [H128|H128];
        [discriminate|].
      intros Heq. injection Heq as <- <-. cbn [rlp.r].
      destruct Hraw as [Hraw | (_ & _ & Hc)]; [|lia].
      exists rlp.String. split; [discriminate|].
      rewrite (Split_of_rawReadKind _ _ _ _ Hraw), Hr.
      rewrite slice_from_slice_from by lia. reflexivity.
    + intros Heq. injection Heq as <- <-. cbn [rlp.r].
      destruct Hraw as [Hraw | (_ & Hc & _)]; [|lia].
      exists rlp.String. split; [discriminate|].
      rewrite (Split_of_rawReadKind _ _ _ _ Hraw), Hr.
      rewrite slice_from_slice_from by lia. reflexivity.
Qed.

Lemma Bytes_no_panic (s : rlp.Stream) : rlp.Bytes s <> Panic.
Proof.
  unfold rlp.Bytes, rlp.bind. pose proof (StreamKind_no_panic s).
  destruct (rlp.StreamKind s) as [[[k size] s1]|e|]; [|discriminate|contradiction].
  destruct k; try discriminate.
  unfold rlp.readFull, rlp.fail, rlp.ret.
  destruct (_ <? _); [discriminate|]. destruct (_ && _); discriminate.
Qed.

Lemma uint_sound (data : list byte) (bv : byte) (maxbits v : Z) (s' : rlp.Stream) :
  len data < 2 ^ 63 -> 0 <= maxbits / 8 <= 8 ->
  rlp.uint maxbits (rlp.mkStream data bv) = Ok (v, s') ->
  exists k content, k <> rlp.List /\ rlp.Split data = Ok (k, content, rlp.r s').
Proof.
  intros Hlen Hmax. unfold rlp.uint, rlp.bind.
  destruct (rlp.StreamKind _) as [[[k size] s1]|e|] eqn:Hk; try discriminate.
  destruct (StreamKind_sound _ _ _ _ _ Hlen Hk)
    as [(-> & -> & Hdata & Hraw) | (Hnb & ts & Hts & Hr & Hsize & Hraw)].
  - destruct (Zbyte (rlp.byteval s1) =? 0); [discriminate|].
    intros Heq. injection Heq as <- <-.
    exists rlp.Byte, [rlp.byteval s1]. split; [discriminate|].
    rewrite (Split_of_rawReadKind _ _ _ _ Hraw). rewrite Hdata. reflexivity.
  - destruct k; [contradiction| |discriminate].
    unfold rlp.fail.
    destruct (Z.ltb_spec (maxbits / 8) size); [discriminate|].
    rewrite Zbyte_byteZ_small by lia.
    assert (Hl1 : len (rlp.r s1) = len data - ts)
      by (rewrite Hr; apply len_slice_from; lia).
    destruct (Z.eq_dec size 0) as [E0|E0].
    + subst size. change (rlp.readUint 0 s1) with (@Ok (Z * rlp.Stream) (0, s1)).
      cbn [Z.ltb Z.compare andb]. intros Heq. injection Heq as <- <-.
      destruct Hraw as [Hraw | (_ & Hc & _)]; [|discriminate Hc].
      exists rlp.String, (slice_to 0 (slice_from ts data)). split; [discriminate|].
      rewrite (Split_of_rawReadKind _ _ _ _ Hraw), Hr. rewrite Z.add_0_r. reflexivity.
    + destruct s1 as [r1 bv1]. cbn [rlp.r] in *.
      destruct (rlp.readUint size _) as [[v1 s2]|e|] eqn:Hu;
        [| destruct e; discriminate | discriminate].
      assert (Hrange : 1 <= size <= 8) by lia.
      destruct (readUint_sound _ _ _ _ _ Hrange Hu) as (Hn & Hs2 & Hv1 & _).
      destruct (Z.ltb_spec 0 size); [|lia]. cbn [andb].
      destruct (Z.ltb_spec v1 128) as [H128|H128]; [discriminate|].
      intros Heq. injection Heq as <- <-. subst s2. cbn [rlp.r].
      destruct Hraw as [Hraw | (_ & Hc & Hf)].
      * exists rlp.String, (slice_to size (slice_from ts data)).
        split; [discriminate|].
        rewrite (Split_of_rawReadKind _ _ _ _ Hraw), Hr.
        rewrite slice_from_slice_from by lia. reflexivity.
      * exfalso. subst size. rewrite slice_to_1, be_uint_single in Hv1 by lia. lia.
Qed.

Lemma uint_no_panic (maxbits : Z) (s : rlp.Stream) :
  0 <= maxbits / 8 <= 8 -> rlp.uint maxbits s <> Panic.
Proof.
  intros Hmax. unfold rlp.uint, rlp.bind. pose proof (StreamKind_no_panic s).
  destruct (rlp.StreamKind s) as [[[k size] s1]|e|] eqn:Hk; [|discriminate|contradiction].
  destruct k; try discriminate.
  - destruct (_ =? 0); discriminate.
  - unfold rlp.fail. destruct (Z.ltb_spec (maxbits / 8) size); [discriminate|].
    destruct (Z_lt_le_dec size 0) as [Hneg|Hnn].
    + (* a size read from the input is never negative *)
      exfalso. rewrite StreamKind_eq in Hk.
      destruct s as [[|b rest] bv]; [rewrite readKind_nil in Hk; discriminate|].
      rewrite readKind_cons in Hk. pose proof (Zbyte_range b).
      destruct (Z.ltb_spec (Zbyte b) 0x80);
        [destruct (_ <? _); discriminate|].
      destruct (Z.ltb_spec (Zbyte b) 0xB8).
      { destruct (_ <? _); [discriminate|]. injection Hk as Hsz _. lia. }
      destruct (Z.ltb_spec (Zbyte b) 0xC0).
      { destruct (rlp.readUint _ _) as [[sz s2]|e|]; try discriminate.
        destruct (Z.ltb_spec sz 56); [discriminate|].
        destruct (_ <? _); [discriminate|]. injection Hk as Hsz _. lia. }
      destruct (Z.ltb_spec (Zbyte b) 0xF8);
        [destruct (_ <? _); discriminate|].
      destruct (rlp.readUint _ _) as [[sz s2]|e|]; try discriminate.
      destruct (Z.ltb_spec sz 56); [discriminate|].
      destruct (_ <? _); discriminate.
    + rewrite Zbyte_byteZ_small by lia.
      pose proof (readUint_no_panic size s1 ltac:(lia)).
      destruct (rlp.readUint size s1) as [[v1 s2]|e|]; [| |contradiction].
      * destruct (_ && _); discriminate.
      * destruct e; discriminate.
Qed.

Lemma wrapped_Ok {A} (m : rlp.M A) (typ : string) (s : rlp.Stream) (a : A * rlp.Stream) :
  rlp.wrapped m typ s = Ok a -> m s = Ok a.
Proof. unfold rlp.wrapped. destruct (m s); congruence. Qed.

Lemma wrapped_no_panic {A} (m : rlp.M A) (typ : string) (s : rlp.Stream) :
  m s <> Panic -> rlp.wrapped m typ s <> Panic.
Proof. unfold rlp.wrapped. destruct (m s); congruence. Qed.

Lemma Bits_range (k : uintKind) : 0 <= Bits k / 8 <= 8.
Proof. destruct (Bits_cases k) as [H|[H|[H|H]]]; lia. Qed.

(** Whatever [DecodeBytes] accepts is exactly one entry for [Split], and
    that entry is a byte or a string. *)
Lemma DecodeBytes_sound (t : rlp.ptrType) (data : list byte)
    (val : option (rlp.pointee t)) (v : rlp.pointee t) :
  len data < 2 ^ 63 ->
  rlp.DecodeBytes t data val = Ok v -> singleScalarEntry data.
Proof.
  intros Hlen. unfold rlp.DecodeBytes, rlp.Decode.
  destruct val as [a|]; [|discriminate].
  destruct (rlp.decoder t _) as [[v1 s1]|e|] eqn:Hd; try discriminate.
  destruct (Z.ltb_spec 0 (len (rlp.r s1))) as [Hr|Hr]; [discriminate|].
  intros _.
  assert (Hnil : rlp.r s1 = []) by (apply len_zero_nil; pose proof (len_nonneg (rlp.r s1)); lia).
  assert (Hgoal : exists k content, k <> rlp.List /\ rlp.Split data = Ok (k, content, rlp.r s1)).
  { destruct t; cbn [rlp.decoder] in Hd.
    - unfold rlp.decodeString, rlp.bind in Hd.
      destruct (rlp.wrapped rlp.Bytes _ _) as [[b s2]|e|] eqn:Hb; try discriminate.
      apply wrapped_Ok in Hb. unfold rlp.ret in Hd. injection Hd as _ <-.
      destruct (Bytes_sound _ _ _ _ Hlen Hb) as (k & Hk & Hs). eauto.
    - unfold rlp.decodeUint in Hd. apply wrapped_Ok in Hd.
      apply (uint_sound _ _ _ _ _ Hlen (Bits_range k) Hd).
    - unfold rlp.decodeBool in Hd. apply wrapped_Ok in Hd.
      unfold rlp.Bool, rlp.bind in Hd.
      destruct (rlp.uint 8 _) as [[num s2]|e|] eqn:Hu; try discriminate.
      assert (Hs2 : s2 = s1).
      { unfold rlp.ret, rlp.fail in Hd.
        destruct (num =? 0); [congruence|]. destruct (num =? 1); congruence. }
      subst s2.
      apply (uint_sound _ _ 8 _ _ Hlen ltac:(cbv; split; discriminate) Hu).
    - unfold rlp.decodeBigInt, rlp.bind in Hd.
      destruct (rlp.wrapped rlp.Bytes _ _) as [[b s2]|e|] eqn:Hb; try discriminate.
      apply wrapped_Ok in Hb.
      assert (Hs2 : s2 = s1).
      { unfold rlp.ret, rlp.fail in Hd. destruct (_ && _); congruence. }
      subst s2.
      destruct (Bytes_sound _ _ _ _ Hlen Hb) as (k & Hk & Hs). eauto. }
  destruct Hgoal as (k & content & Hk & Hs). rewrite Hnil in Hs.
  exists k, content. split; assumption.
Qed.

Lemma DecodeBytes_no_panic (t : rlp.ptrType) (data : list byte)
    (val : option (rlp.pointee t)) :
  rlp.DecodeBytes t data val <> Panic.
Proof.
  unfold rlp.DecodeBytes, rlp.Decode.
  destruct val as [a|]; [|discriminate].
  assert (Hd : rlp.decoder t (rlp.mkStream data Byte.x00) <> Panic).
  { destruct t; cbn [rlp.decoder].
    - unfold rlp.decodeString, rlp.bind.
      pose proof (wrapped_no_panic rlp.Bytes "string" (rlp.mkStream data Byte.x00)
                    (Bytes_no_panic _)).
      destruct (rlp.wrapped rlp.Bytes _ _) as [[b s2]|e|]; [discriminate|discriminate|contradiction].
    - apply wrapped_no_panic, uint_no_panic, Bits_range.
    - apply wrapped_no_panic. unfold rlp.Bool, rlp.bind.
      pose proof (uint_no_panic 8 (rlp.mkStream data Byte.x00) ltac:(cbv; split; discriminate)).
      destruct (rlp.uint 8 _) as [[num s2]|e|]; [|discriminate|contradiction].
      unfold rlp.ret, rlp.fail.
      destruct (num =? 0); [discriminate|]. destruct (num =? 1); discriminate.
    - unfold rlp.decodeBigInt, rlp.bind.
      pose proof (wrapped_no_panic rlp.Bytes "*big.Int" (rlp.mkStream data Byte.x00)
                    (Bytes_no_panic _)).
      destruct (rlp.wrapped rlp.Bytes _ _) as [[b s2]|e|]; [|discriminate|contradiction].
      unfold rlp.ret, rlp.fail. destruct (_ && _); discriminate. }
  destruct (rlp.decoder t _) as [[v1 s1]|e|]; [|discriminate|contradiction].
  destruct (_ <? _); discriminate.
Qed.

(** ** One-byte inputs *)

Lemma Split_incomplete (b : byte) :
  0 < announced b ->
  rlp.Split [b] = Err ErrValueTooLarge \/ rlp.Split [b] = Err io_ErrUnexpectedEOF.
Proof.
  destruct b; vm_compute; intros H; first [discriminate H | left; reflexivity | right; reflexivity].
Qed.

Lemma DecodeBytes_incomplete (t : rlp.ptrType) (b : byte) (a : rlp.pointee t) :
  0 < announced b ->
  rlp.DecodeBytes t [b] (Some a) = Err ErrValueTooLarge.
Proof.
  destruct t as [|k| |]; [|destruct k| |];
    destruct b; vm_compute; intros H; first [discriminate H | reflexivity].
Qed.


(** ** Strings of error messages *)

Lemma append_empty_r (s : string) : (s ++ "")%string = s.
Proof.
  induction s as [|c s IH]; [reflexivity|].
  cbn [String.append]. rewrite IH. reflexivity.
Qed.

(** ** The scenarios of the specification, evaluated *)

Example scenario_uint64_zero :
  encodeStorage (VUint Kuint64 0) = Ok [] /\
  decodeStorage [] (PUint Kuint64 (Some 9)) = Ok (PUint Kuint64 (Some 0)).
Proof. split; reflexivity. Qed.

Example scenario_uint64_300 :
  encodeStorage (VUint Kuint64 300) = Ok [Byte.x82; Byte.x01; Byte.x2c] /\
  decodeStorage [Byte.x82; Byte.x01; Byte.x2c] (PUint Kuint64 (Some 0))
  = Ok (PUint Kuint64 (Some 300)).
Proof. split; reflexivity. Qed.

Example scenario_hash_one :
  encodeStorage (VBytes32 (repeat Byte.x00 31 ++ [Byte.x01])) = Ok [Byte.x01] /\
  decodeStorage [Byte.x01] (PBytes32 (Some (thor.zeroBytes 32)))
  = Ok (PBytes32 (Some (repeat Byte.x00 31 ++ [Byte.x01]))).
Proof. split; reflexivity. Qed.

Example scenario_string :
  encodeStorage (VString "") = Ok [] /\
  encodeStorage (VString "x") = Ok [Byte.x78].
Proof. split; reflexivity. Qed.

Example scenario_bool :
  encodeStorage (VBool false) = Ok [] /\
  encodeStorage (VBool true) = Ok [Byte.x01] /\
  decodeStorage [Byte.x02] (PBool (Some false))
  = Err (errorString "rlp: invalid boolean value: 2").
Proof. repeat split; reflexivity. Qed.

Example scenario_long_string :
  let s := "0123456789012345678901234567890123456789012345678901234567890123456789"%string in
  exists data,
    encodeStorage (VString s) = Ok data /\
    firstn 2 data = [Byte.xb8; Byte.x46] /\
    decodeStorage data (PString (Some ""%string)) = Ok (PString (Some s)).
Proof. eexists. repeat split; reflexivity. Qed.

(** ** The properties of the specification *)

(** C1, as amended. Round trip: a well-formed value of a built-in type, a
    big integer being non-negative, is encoded without error, and decoding
    the bytes into a fresh destination of its type succeeds and leaves the
    destination holding the value. *)
Theorem encode_decode_roundtrip (val : value) :
  isBuiltin val = true -> nonNil val = true -> wf val -> nonNegative val ->
  exists data,
    encodeStorage val = Ok data /\
    decodeStorage data (fresh val) = Ok (pointerTo val).
Proof.
  intros Hb Hn Hwf Hpos.
  destruct val as [v|[v|]|v|[v|]|v|[v|]|k v|k [v|]|v|[v|]|v|[v|]|name enc dec|];
    try discriminate Hb; try discriminate Hn.
  - apply (roundtrip_value_form (VBytes32 v)); [reflexivity | exact Hwf].
  - apply (roundtrip_value_form (VBytes32 v)); [reflexivity | exact Hwf].
  - apply (roundtrip_value_form (VAddress v)); [reflexivity | exact Hwf].
  - apply (roundtrip_value_form (VAddress v)); [reflexivity | exact Hwf].
  - apply (roundtrip_value_form (VString v)); [reflexivity | exact Hwf].
  - apply (roundtrip_value_form (VString v)); [reflexivity | exact Hwf].
  - apply (roundtrip_value_form (VUint k v)); [reflexivity | exact Hwf].
  - apply (roundtrip_value_form (VUint k v)); [reflexivity | exact Hwf].
  - apply (roundtrip_value_form (VBool v)); [reflexivity | exact Hwf].
  - apply (roundtrip_value_form (VBool v)); [reflexivity | exact Hwf].
  - apply roundtrip_big; [exact Hpos | exact Hwf].
Qed.

Lemma encode_decode_roundtrip_witness :
  exists data,
    encodeStorage (VUint Kuint64 300) = Ok data /\
    decodeStorage data (fresh (VUint Kuint64 300)) = Ok (pointerTo (VUint Kuint64 300)).
Proof.
  apply (encode_decode_roundtrip (VUint Kuint64 300)).
  - reflexivity.
  - reflexivity.
  - cbn. split; [discriminate | reflexivity].
  - exact I.
Defined.

(** C1 as stated fails: the big integer -1 is a value of a built-in type
    and [encodeStorage] returns an error for it, so there are no bytes to
    decode. *)
Lemma encode_decode_negative_big_fails :
  isBuiltin (PBigInt (Some (-1))) = true /\
  nonNil (PBigInt (Some (-1))) = true /\
  wf (PBigInt (Some (-1))) /\
  ~ exists data,
      encodeStorage (PBigInt (Some (-1))) = Ok data /\
      decodeStorage data (fresh (PBigInt (Some (-1)))) = Ok (pointerTo (PBigInt (Some (-1)))).
Proof.
  repeat split.
  intros (data & He & _). rewrite encode_negative_big in He by lia. discriminate He.
Qed.

(** C2. Zero elision: for every built-in type, in either form, and whatever
    the envelope package does, [encodeStorage] of the zero value of the
    type returns the empty byte string and no error. *)
Theorem zero_elision (pkg : rlpPackage) (val : value) :
  isBuiltin val = true -> nonNil val = true ->
  encodeStorage (zeroOf val) = Ok [].
Proof.
  intros Hb Hn.
  destruct val as [v|[v|]|v|[v|]|v|[v|]|k v|k [v|]|v|[v|]|v|[v|]|name enc dec|];
    try discriminate Hb; try discriminate Hn; reflexivity.
Qed.

Lemma zero_elision_witness :
  isBuiltin (PBytes32 (Some (repeat Byte.xff 32))) = true /\
  encodeStorage (zeroOf (PBytes32 (Some (repeat Byte.xff 32)))) = Ok [].
Proof.
  split; [reflexivity|].
  apply (zero_elision geth (PBytes32 (Some (repeat Byte.xff 32)))); reflexivity.
Defined.

(** C3. Absence equivalence: for every built-in destination, whatever it
    held and whatever the envelope package does (its parser is not asked),
    [decodeStorage] of the empty input succeeds and leaves the zero value
    of the type in the destination. *)
Theorem absence_equivalence (pkg : rlpPackage) (val : value) :
  isDest val = true -> nonNil val = true ->
  decodeStorage [] val = Ok (zeroOf val).
Proof.
  intros Hd Hn.
  destruct val as [v|[v|]|v|[v|]|v|[v|]|k v|k [v|]|v|[v|]|v|[v|]|name enc dec|];
    try discriminate Hd; try discriminate Hn; reflexivity.
Qed.

Lemma absence_equivalence_witness :
  isDest (PUint Kuint16 (Some 77)) = true /\
  decodeStorage [] (PUint Kuint16 (Some 77)) = Ok (PUint Kuint16 (Some 0)).
Proof.
  split; [reflexivity|].
  apply (absence_equivalence geth (PUint Kuint16 (Some 77))); reflexivity.
Defined.

(** C4, as amended. Neither function looks at the extension capability: a
    value whose type is not built-in gets the unsupported-type error from
    both, whether or not its type has [Encode] or [Decode] and whatever
    those would return. *)
Theorem extension_not_consulted (pkg : rlpPackage) (name : string)
    (enc : option StorageEncoder) (dec : option StorageDecoder) (data : list byte) :
  encodeStorage (VOther name enc dec)
  = Err (errorString ("encode storage value: type " ++ name)) /\
  decodeStorage data (VOther name enc dec)
  = Err (errorString ("decode storage value: type " ++ name)).
Proof. split; reflexivity. Qed.

(** C4 as stated fails: for a value whose type has both methods, [Encode]
    returning one byte and [Decode] accepting any input, [encodeStorage]
    does not return what [Encode] returns and [decodeStorage] fails where
    [Decode] succeeds. *)
Lemma extension_not_delegated :
  let e := {| Encode := Ok [Byte.x2a] |} in
  let d := {| Decode := fun _ => None |} in
  let v := VOther "state.slot" (Some e) (Some d) in
  encodeStorage v <> Encode e /\
  Decode d [Byte.x2a] = None /\
  exists err, decodeStorage [Byte.x2a] v = Err err.
Proof.
  cbv zeta. split; [discriminate|]. split; [reflexivity|].
  eexists. reflexivity.
Qed.

(** C5, as amended. For a string, unsigned integer, bool or big integer
    destination, a non-empty input that is not exactly one scalar envelope
    entry makes [decodeStorage] return an error. For a hash or address
    destination [decodeStorage] returns an error exactly when [Split]
    rejects the input, that is when its first entry is malformed; what
    follows the entry and the kind of the entry are not looked at. *)
Theorem malformed_input_rejected (val : value) (data : list byte) :
  isDest val = true -> nonNil val = true ->
  data <> [] -> len data < 2 ^ 63 ->
  (fixedSize val = false ->
   ~ singleScalarEntry data -> exists e, decodeStorage data val = Err e) /\
  (fixedSize val = true ->
   decodeStorage data val <> Panic /\
   forall e, decodeStorage data val = Err e <-> rlp.Split data = Err e).
Proof.
  intros Hd Hn Hne Hlen.
  assert (H0 : (len data =? 0) = false).
  { apply Z.eqb_neq. intros E. apply len_zero_nil in E. contradiction. }
  assert (Hdec : forall t (a : rlp.pointee t) (f : rlp.pointee t -> value),
            ~ singleScalarEntry data ->
            exists e, omap f (rlp.DecodeBytes t data (Some a)) = Err e).
  { intros t a f Hns.
    destruct (rlp.DecodeBytes t data (Some a)) as [v|e|] eqn:E.
    - exfalso. apply Hns. apply (DecodeBytes_sound t data (Some a) v Hlen E).
    - exists e. reflexivity.
    - exfalso. apply (DecodeBytes_no_panic t data (Some a)). exact E. }
  destruct val as [v|[v|]|v|[v|]|v|[v|]|k v|k [v|]|v|[v|]|v|[v|]|name enc dec|];
    try discriminate Hd; try discriminate Hn;
    (split; intros Hf; [try discriminate Hf | try discriminate Hf]);
    cbn [decodeStorage]; rewrite H0; cbn [rlp_Split rlp_DecodeBytes geth].
  - pose proof (Split_no_panic data) as Hp.
    destruct (rlp.Split data) as [[[k c] rest]|e0|]; [| |contradiction];
      cbn [omap deref]; (split; [discriminate|]); intros e; split; congruence.
  - pose proof (Split_no_panic data) as Hp.
    destruct (rlp.Split data) as [[[k c] rest]|e0|]; [| |contradiction];
      cbn [omap deref]; (split; [discriminate|]); intros e; split; congruence.
  - apply (Hdec rlp.TString).
  - apply (Hdec (rlp.TUint k)).
  - apply (Hdec rlp.TBool).
  - apply (Hdec rlp.TBigInt).
Qed.

Lemma malformed_input_rejected_witness :
  exists e,
    decodeStorage [Byte.x82; Byte.x01; Byte.x2c; Byte.x00] (PUint Kuint64 (Some 0))
    = Err e.
Proof.
  apply (proj1 (malformed_input_rejected (PUint Kuint64 (Some 0))
                  [Byte.x82; Byte.x01; Byte.x2c; Byte.x00]
                  eq_refl eq_refl ltac:(discriminate) eq_refl) eq_refl).
  intros (k & content & H & _). vm_compute in H. discriminate H.
Defined.

(** C5 as stated fails: into a hash, an input with a byte after a valid
    first entry is decoded without error; into an address, so is an empty
    list. Neither input is a single scalar entry. *)
Lemma trailing_bytes_and_lists_accepted :
  isDest (PBytes32 (Some (thor.zeroBytes 32))) = true /\
  ~ singleScalarEntry [Byte.x01; Byte.x02] /\
  decodeStorage [Byte.x01; Byte.x02] (PBytes32 (Some (thor.zeroBytes 32)))
  = Ok (PBytes32 (Some (repeat Byte.x00 31 ++ [Byte.x01]))) /\
  isDest (PAddress (Some (thor.zeroBytes 20))) = true /\
  ~ singleScalarEntry [Byte.xc0] /\
  decodeStorage [Byte.xc0] (PAddress (Some (thor.zeroBytes 20)))
  = Ok (PAddress (Some (thor.zeroBytes 20))).
Proof.
  split; [reflexivity|]. split.
  { intros (k & content & H & _). vm_compute in H. discriminate H. }
  split; [reflexivity|]. split; [reflexivity|]. split.
  { intros (k & content & H & Hk). vm_compute in H.
    injection H as <- _. apply Hk. reflexivity. }
  reflexivity.
Qed.

(** C6, as amended. Canonical minimality: a non-zero unsigned integer of
    any kind and a positive big integer are encoded to exactly one envelope
    entry whose payload denotes the number in big-endian order and starts
    with a non-zero byte. *)
Theorem minimal_payload (val : value) (v : Z) :
  number val = Some v -> wf val -> 0 < v ->
  exists data k payload,
    encodeStorage val = Ok data /\
    rlp.Split data = Ok (k, payload, []) /\
    Zbyte (first payload) <> 0 /\
    be_uint payload = v.
Proof.
  intros Hnum Hwf Hpos.
  assert (Huint : forall kd, 0 <= v < 2 ^ Bits kd ->
            exists data k payload,
              encodeUint (uint64 v) = Ok data /\
              rlp.Split data = Ok (k, payload, []) /\
              Zbyte (first payload) <> 0 /\ be_uint payload = v).
  { intros kd Hr. pose proof (Bits_pow kd) as [_ Hle].
    rewrite uint64_small by lia. unfold encodeUint.
    destruct (Z.eqb_spec v 0); [lia|].
    destruct (writeUint_encoded v ltac:(lia)) as (w & Hw & Henc).
    pose proof (putint_minimal v ltac:(lia)) as (_ & Hval & Hfirst & _).
    exists w, (stringKind (rlp.putint v)), (rlp.putint v).
    split; [exact Hw|]. split; [apply Split_encoded; exact Henc|].
    split; assumption. }
  destruct val as [x|[x|]|x|[x|]|x|[x|]|kd x|kd [x|]|x|[x|]|x|[x|]|name enc dec|];
    try discriminate Hnum; cbn [number] in Hnum; injection Hnum as ->;
    cbn [wf] in Hwf; cbn [encodeStorage deref].
  - apply (Huint kd Hwf).
  - apply (Huint kd Hwf).
  - unfold big.Sign. destruct (Z.eqb_spec (Z.sgn v) 0) as [E|E].
    + assert (v = 0) by (apply Z.sgn_null_iff; exact E). lia.
    + destruct (decodeBigInt_writeBigInt v Hpos Hwf) as (w & Hw & Henc & _).
      pose proof (minimal_be v Hpos) as (_ & _ & Hval & Hfirst & _). cbv zeta in *.
      rewrite <- big_Bytes_positive in Hval, Hfirst by exact Hpos.
      exists w, (stringKind (big.Bytes v)), (big.Bytes v).
      split; [exact Hw|]. split; [apply Split_encoded; exact Henc|].
      split; assumption.
Qed.

Lemma minimal_payload_witness :
  exists data k payload,
    encodeStorage (VUint Kuint64 300) = Ok data /\
    rlp.Split data = Ok (k, payload, []) /\
    Zbyte (first payload) <> 0 /\
    be_uint payload = 300.
Proof.
  apply (minimal_payload (VUint Kuint64 300) 300).
  - reflexivity.
  - cbn. split; [discriminate | reflexivity].
  - reflexivity.
Defined.

(** C6 as stated fails: -1 is a non-zero big integer and [encodeStorage]
    produces no envelope for it. *)
Lemma minimal_payload_negative_big_fails :
  number (PBigInt (Some (-1))) = Some (-1) /\ -1 <> 0 /\
  ~ exists data k payload,
      encodeStorage (PBigInt (Some (-1))) = Ok data /\
      rlp.Split data = Ok (k, payload, []) /\
      Zbyte (first payload) <> 0.
Proof.
  split; [reflexivity|]. split; [discriminate|].
  intros (data & k & payload & He & _).
  rewrite encode_negative_big in He by lia. discriminate He.
Qed.

(** C7. Unsupported type: a value whose type the encoder has no case for
    makes [encodeStorage] fail, a destination whose type the decoder has no
    case for makes [decodeStorage] fail, each with an error whose message
    ends in the name of the type passed. *)
Theorem unsupported_type (pkg : rlpPackage) (val : value) (name : string)
    (data : list byte) :
  typeString val = Some name ->
  (isBuiltin val = false ->
   encodeStorage val = Err (errorString ("encode storage value: type " ++ name))) /\
  (isDest val = false ->
   decodeStorage data val = Err (errorString ("decode storage value: type " ++ name))) /\
  contains name ("encode storage value: type " ++ name) /\
  contains name ("decode storage value: type " ++ name).
Proof.
  intros Ht. repeat split.
  - intros Hb. destruct val; try discriminate Hb; try discriminate Ht;
      cbn [encodeStorage]; unfold unsupported; rewrite Ht; reflexivity.
  - intros Hd. destruct val; try discriminate Hd; try discriminate Ht;
      cbn [decodeStorage]; unfold unsupported; rewrite Ht; reflexivity.
  - exists "encode storage value: type "%string, ""%string.
    rewrite append_empty_r. reflexivity.
  - exists "decode storage value: type "%string, ""%string.
    rewrite append_empty_r. reflexivity.
Qed.

Lemma unsupported_type_witness :
  typeString (VOther "main.T" None None) = Some "main.T"%string /\
  encodeStorage (VOther "main.T" None None)
  = Err (errorString "encode storage value: type main.T") /\
  decodeStorage [Byte.x01] (VUint Kuint64 5)
  = Err (errorString "decode storage value: type uint64").
Proof.
  split; [reflexivity|]. split.
  - apply (unsupported_type geth (VOther "main.T" None None) "main.T" []);
      reflexivity.
  - apply (unsupported_type geth (VUint Kuint64 5) "uint64" [Byte.x01]);
      reflexivity.
Defined.

(** C8. A one-byte input whose byte announces bytes that are not there,
    decoded into any built-in destination, makes [decodeStorage] return an
    error of the malformed-envelope class: the value does not fit the
    input, or the input ends before the length. It neither panics nor
    succeeds. *)
Theorem incomplete_prefix_rejected (val : value) (b : byte) :
  isDest val = true -> nonNil val = true -> 0 < announced b ->
  exists e,
    decodeStorage [b] val = Err e /\
    (e = ErrValueTooLarge \/ e = io_ErrUnexpectedEOF) /\
    malformedEnvelope e = true.
Proof.
  intros Hd Hn Hb.
  assert (Hsplit : forall (f : option (list byte) -> value) g,
            exists e,
              match rlp.Split [b] with
              | Ok (_, content, _) => omap f (g content)
              | Err err => Err err
              | Panic => Panic
              end = Err e /\
              (e = ErrValueTooLarge \/ e = io_ErrUnexpectedEOF) /\
              malformedEnvelope e = true).
  { intros f g. destruct (Split_incomplete b Hb) as [E|E]; rewrite E; eexists;
      (split; [reflexivity|]); split; auto. }
  assert (Hdec : forall t (a : rlp.pointee t) (f : rlp.pointee t -> value),
            exists e,
              omap f (rlp.DecodeBytes t [b] (Some a)) = Err e /\
              (e = ErrValueTooLarge \/ e = io_ErrUnexpectedEOF) /\
              malformedEnvelope e = true).
  { intros t a f. rewrite (DecodeBytes_incomplete t b a Hb).
    exists ErrValueTooLarge. split; [reflexivity|]. split; [left|]; reflexivity. }
  destruct val as [v|[v|]|v|[v|]|v|[v|]|k v|k [v|]|v|[v|]|v|[v|]|name enc dec|];
    try discriminate Hd; try discriminate Hn;
    cbn [decodeStorage]; change (len [b] =? 0) with false; cbv iota;
    cbn [rlp_Split rlp_DecodeBytes geth].
  - apply Hsplit.
  - apply Hsplit.
  - apply (Hdec rlp.TString).
  - apply (Hdec (rlp.TUint k)).
  - apply (Hdec rlp.TBool).
  - apply (Hdec rlp.TBigInt).
Qed.

Lemma incomplete_prefix_rejected_witness :
  exists e,
    decodeStorage [Byte.x81] (PBytes32 (Some (thor.zeroBytes 32))) = Err e /\
    (e = ErrValueTooLarge \/ e = io_ErrUnexpectedEOF) /\
    malformedEnvelope e = true.
Proof.
  apply (incomplete_prefix_rejected (PBytes32 (Some (thor.zeroBytes 32))) Byte.x81);
    reflexivity.
Defined.

(** C9, as amended. For every built-in type the encoder lists both as the
    type and as its pointer (hash, address, string, the unsigned integers,
    bool), and whatever the envelope package does, [encodeStorage] returns
    the same for a value and for the pointer to it. *)
Theorem pointer_form_same (pkg : rlpPackage) (val : value) :
  hasBothForms val = true ->
  encodeStorage (pointerTo val) = encodeStorage val.
Proof.
  intros H. destruct val; try discriminate H; reflexivity.
Qed.

Lemma pointer_form_same_witness :
  hasBothForms (VString "x") = true /\
  encodeStorage (PString (Some "x"%string)) = encodeStorage (VString "x").
Proof.
  split; [reflexivity|].
  apply (pointer_form_same geth (VString "x")). reflexivity.
Defined.

(** C9 as stated fails: the big integer is built in as [*big.Int] only; a
    [big.Int] passed by value gets the unsupported-type error, the pointer
    to it is encoded. *)
Lemma pointer_form_big_differs :
  encodeStorage (VBigInt 5) = Err (errorString "encode storage value: type big.Int") /\
  encodeStorage (pointerTo (VBigInt 5)) = Ok [Byte.x05] /\
  encodeStorage (pointerTo (VBigInt 5)) <> encodeStorage (VBigInt 5).
Proof.
  split; [reflexivity|]. split; [reflexivity|]. discriminate.
Qed.

(** What decoding into a fixed-size destination does once [Split] has
    accepted the input: a payload longer than the array is cropped to its
    last bytes; a shorter one is written at the end of the array, whose
    bytes before it stay as they were. *)
Lemma SetBytes_cases (n : Z) (h content : list byte) :
  0 <= n ->
  common.SetBytes n h content
  = if n <? len content then slice_from (len content - n) content
    else slice_to (n - len content) h ++ content.
Proof.
  intros Hn. unfold common.SetBytes.
  destruct (Z.ltb_spec n (len content)) as [Hl|Hl]; [|reflexivity].
  pose proof (len_nonneg content).
  rewrite len_slice_from by lia.
  replace (n - (len content - (len content - n))) with 0 by lia.
  reflexivity.
Qed.

Lemma decode_fixed_size (data h content rest : list byte) (k : rlp.Kind) :
  data <> [] ->
  rlp.Split data = Ok (k, content, rest) ->
  decodeStorage data (PBytes32 (Some h))
  = Ok (PBytes32 (Some
      (if 32 <? len content then slice_from (len content - 32) content
       else slice_to (32 - len content) h ++ content))) /\
  decodeStorage data (PAddress (Some h))
  = Ok (PAddress (Some
      (if 20 <? len content then slice_from (len content - 20) content
       else slice_to (20 - len content) h ++ content))).
Proof.
  intros Hne Hs. cbn [decodeStorage].
  destruct (Z.eqb_spec (len data) 0) as [E|E];
    [apply len_zero_nil in E; contradiction|].
  cbn [rlp_Split geth]. rewrite Hs. cbn [omap deref].
  unfold common.HashLength, common.AddressLength.
  rewrite !SetBytes_cases by lia. split; reflexivity.
Qed.

(** C10, at the failing input. The one-byte payload [0x01] decoded into a
    hash that held 32 bytes [0xff] leaves [0xff .. 0xff 0x01]: the payload
    is not padded with zero bytes, the 31 bytes before it keep their old
    content. The same happens for an address. *)
Theorem decode_short_payload_keeps_prefix :
  decodeStorage [Byte.x01] (PBytes32 (Some (repeat Byte.xff 32)))
  = Ok (PBytes32 (Some (repeat Byte.xff 31 ++ [Byte.x01]))) /\
  decodeStorage [Byte.x01] (PAddress (Some (repeat Byte.xff 20)))
  = Ok (PAddress (Some (repeat Byte.xff 19 ++ [Byte.x01]))).
Proof. split; reflexivity. Qed.

(** * Further properties of the codec *)

(** ** Big-endian numbers, read back *)

Lemma be_uint_inj (l1 l2 : list byte) :
  List.length l1 = List.length l2 -> be_uint l1 = be_uint l2 -> l1 = l2.
Proof.
  revert l2. induction l1 as [|x l1 IH]; intros [|y l2] Hlen Hval;
    try discriminate Hlen; [reflexivity|].
  injection Hlen as Hlen.
  rewrite !be_uint_cons in Hval.
  assert (Hl : len l1 = len l2) by (unfold len; rewrite Hlen; reflexivity).
  rewrite Hl in Hval.
  pose proof (be_uint_range l1) as R1. pose proof (be_uint_range l2) as R2.
  rewrite Hl in R1.
  pose proof (Zbyte_range x). pose proof (Zbyte_range y).
  assert (Hp : 0 < 256 ^ len l2) by (apply Z.pow_pos_nonneg; [lia | apply len_nonneg]).
  assert (Hxy : Zbyte x = Zbyte y) by nia.
  assert (Hrest : be_uint l1 = be_uint l2) by nia.
  f_equal; [apply Zbyte_inj; exact Hxy | apply IH; assumption].
Qed.

Lemma be_bytes_be_uint (l : list byte) :
  be_bytes (List.length l) (be_uint l) = l.
Proof.
  apply be_uint_inj.
  - pose proof (len_be_bytes (List.length l) (be_uint l)) as H.
    unfold len in H. lia.
  - apply be_uint_be_bytes_small. apply be_uint_range.
Qed.

Lemma be_uint_lower (l : list byte) :
  Zbyte (first l) <> 0 -> 256 ^ (len l - 1) <= be_uint l.
Proof.
  destruct l as [|x l]; [intros H; exfalso; apply H; reflexivity|].
  cbn [first hd]. intros Hx. rewrite be_uint_cons, len_cons.
  replace (1 + len l - 1) with (len l) by lia.
  pose proof (be_uint_range l). pose proof (Zbyte_range x).
  assert (Hp : 0 < 256 ^ len l) by (apply Z.pow_pos_nonneg; [lia | apply len_nonneg]).
  nia.
Qed.

Lemma byteLen_be_uint (l : list byte) :
  Zbyte (first l) <> 0 -> big.byteLen (be_uint l) = List.length l.
Proof.
  intros Hx. apply Nat2Z.inj. apply byteLen_unique.
  - destruct l; [exfalso; apply Hx; reflexivity|]. simpl List.length. lia.
  - split; [apply be_uint_lower; exact Hx | apply be_uint_range].
Qed.

(** A byte string without a leading zero is the magnitude of the number it
    denotes. *)
Lemma big_Bytes_be_uint (l : list byte) :
  l = [] \/ Zbyte (first l) <> 0 -> big.Bytes (be_uint l) = l.
Proof.
  intros [-> | Hx]; [reflexivity|].
  assert (Hpos : 0 < be_uint l).
  { pose proof (be_uint_lower l Hx).
    assert (0 < 256 ^ (len l - 1)); [|lia].
    apply Z.pow_pos_nonneg; [lia|].
    destruct l; [exfalso; apply Hx; reflexivity|].
    rewrite len_cons. pose proof (len_nonneg l). lia. }
  rewrite big_Bytes_positive by exact Hpos.
  rewrite byteLen_be_uint by exact Hx. apply be_bytes_be_uint.
Qed.

Lemma putint_be_uint (l : list byte) :
  1 <= len l <= 8 -> Zbyte (first l) <> 0 -> rlp.putint (be_uint l) = l.
Proof.
  intros Hlen Hx.
  pose proof (be_uint_lower l Hx) as Hlo. pose proof (be_uint_range l) as Hhi.
  assert (Hp : 0 < 256 ^ (len l - 1)) by (apply Z.pow_pos_nonneg; lia).
  assert (H64 : 256 ^ len l <= 2 ^ 64).
  { change (2 ^ 64) with (256 ^ 8). apply Z.pow_le_mono_r; lia. }
  rewrite putint_be_bytes by lia.
  rewrite byteLen_be_uint by exact Hx. apply be_bytes_be_uint.
Qed.

(** The bytes [encodeBytesTrimmed] keeps: no leading zero, same number. *)
Lemma trimmed_props (bs : list byte) :
  let t := slice_from (leadingZeros bs) bs in
  (t = [] \/ Zbyte (first t) <> 0) /\ be_uint t = be_uint bs /\ len t <= len bs.
Proof.
  induction bs as [|b bs IH]; [cbv; intuition discriminate|].
  cbn [leadingZeros]. pose proof (leadingZeros_range bs) as Hr.
  destruct (Byte.eqb b Byte.x00) eqn:E.
  - apply Byte.byte_dec_bl in E. subst b.
    rewrite slice_from_succ_cons by lia. cbv zeta in IH.
    destruct IH as (H1 & H2 & H3).
    split; [exact H1|]. split.
    + rewrite be_uint_cons, H2. change (Zbyte Byte.x00) with 0. lia.
    + rewrite len_cons. lia.
  - change (slice_from 0 (b :: bs)) with (b :: bs).
    split; [|split; [reflexivity | lia]].
    right. cbn [first hd]. intros H0.
    assert (b = Byte.x00) by (apply Zbyte_inj; exact H0).
    subst b. discriminate E.
Qed.

(** ** The encoder, as a function of the payload *)

Lemma putint_nonempty (i : Z) : rlp.putint i <> [].
Proof.
  unfold rlp.putint.
  repeat match goal with
  | |- context [?a <? ?b] => destruct (a <? b)
  end; discriminate.
Qed.

Lemma encodeString_nonempty (b : list byte) : rlp.encodeString b [] <> [].
Proof.
  unfold rlp.encodeString, rlp.encodeStringHeader.
  destruct (_ && _); [discriminate|].
  destruct (_ <? _); cbn [app]; discriminate.
Qed.

Lemma writeString_encodeString (s : string) :
  rlp.writeString s [] = Ok (rlp.encodeString (list_byte_of_string s) []).
Proof.
  unfold rlp.writeString, rlp.encodeString. destruct (_ && _); reflexivity.
Qed.

(** A positive [uint64] is written as the byte string [putint] gives. *)
Lemma writeUint_encodeString (v : Z) :
  0 < v < 2 ^ 64 ->
  rlp.writeUint v [] = Ok (rlp.encodeString (rlp.putint v) []).
Proof.
  intros Hv. pose proof (putint_minimal v Hv) as (Hlen & Hval & Hfirst & Hne).
  cbv zeta in *. unfold rlp.writeUint, rlp.encodeString, rlp.encodeStringHeader.
  destruct (Z.eqb_spec v 0); [lia|].
  destruct (Z.ltb_spec v 128) as [Hs|Hs].
  - rewrite putint_small by (change (2 ^ 8) with 256; lia).
    change (len [byteZ v]) with 1. cbn [first hd Z.eqb Pos.eqb andb].
    rewrite Zbyte_byteZ_small by lia.
    destruct (Z.leb_spec v 0x7F); [reflexivity | lia].
  - assert (Hc : (len (rlp.putint v) =? 1) && (Zbyte (first (rlp.putint v)) <=? 0x7F) = false).
    { destruct (Z.eqb_spec (len (rlp.putint v)) 1) as [E|E]; [|reflexivity].
      destruct (rlp.putint v) as [|x [|y l]] eqn:Ep.
      - contradiction.
      - rewrite be_uint_single in Hval. cbn [first hd].
        destruct (Z.leb_spec (Zbyte x) 0x7F); [lia | reflexivity].
      - rewrite !len_cons in E. pose proof (len_nonneg l). lia. }
    rewrite Hc.
    destruct (Z.ltb_spec (len (rlp.putint v)) 56); [|lia]. reflexivity.
Qed.

Lemma writeBigInt_encodeString (v : Z) :
  0 < v -> rlp.writeBigInt v [] = Ok (rlp.encodeString (big.Bytes v) []).
Proof.
  intros Hv. unfold rlp.writeBigInt, big.Cmp.
  destruct (Z.compare_spec v 0); try lia. reflexivity.
Qed.

Lemma big_Bytes_putint (v : Z) : 0 < v < 2 ^ 64 -> big.Bytes v = rlp.putint v.
Proof.
  intros Hv. rewrite big_Bytes_positive by lia. symmetry. apply putint_be_bytes. exact Hv.
Qed.

Lemma encode_big_form (v : Z) :
  0 <= v ->
  encodeStorage (PBigInt (Some v))
  = if v =? 0 then Ok [] else Ok (rlp.encodeString (big.Bytes v) []).
Proof.
  intros Hv. cbn [encodeStorage deref]. unfold big.Sign.
  destruct (Z.eqb_spec v 0) as [E|E].
  - subst v. reflexivity.
  - destruct (Z.eqb_spec (Z.sgn v) 0) as [E0|E0].
    + exfalso. apply E. apply Z.sgn_null_iff. exact E0.
    + cbn [rlp_EncodeToBytes geth].
      unfold rlp.EncodeToBytes, rlp.encode, rlp.writeBigIntPtr.
      apply writeBigInt_encodeString. lia.
Qed.

Lemma encode_trimmed_form (bs : list byte) :
  encodeBytesTrimmed bs
  = let t := slice_from (leadingZeros bs) bs in
    if len t =? 0 then Ok [] else Ok (rlp.encodeString t []).
Proof. reflexivity. Qed.

Lemma encode_uint_form (v : Z) :
  0 <= v < 2 ^ 64 ->
  encodeUint (uint64 v)
  = if v =? 0 then Ok [] else Ok (rlp.encodeString (rlp.putint v) []).
Proof.
  intros Hv. rewrite uint64_small by exact Hv. unfold encodeUint.
  destruct (Z.eqb_spec v 0); [reflexivity|].
  cbn [rlp_EncodeToBytes geth]. unfold rlp.EncodeToBytes, rlp.encode.
  apply writeUint_encodeString. lia.
Qed.

(** A byte array is encoded as the big integer it denotes. *)
Lemma encode_trimmed_as_big (bs : list byte) :
  encodeBytesTrimmed bs = encodeStorage (PBigInt (Some (be_uint bs))).
Proof.
  pose proof (trimmed_props bs) as (Hmin & Hval & _). cbv zeta in *.
  pose proof (be_uint_range bs) as Hr.
  rewrite encode_trimmed_form, encode_big_form by lia. cbv zeta.
  rewrite <- Hval.
  destruct Hmin as [Hnil | Hx].
  - rewrite Hnil. reflexivity.
  - destruct (Z.eqb_spec (len (slice_from (leadingZeros bs) bs)) 0) as [E|E].
    + apply len_zero_nil in E. rewrite E in Hx. exfalso. apply Hx. reflexivity.
    + pose proof (be_uint_lower _ Hx) as Hlo.
      assert (0 < 256 ^ (len (slice_from (leadingZeros bs) bs) - 1)).
      { apply Z.pow_pos_nonneg; [lia|].
        pose proof (len_nonneg (slice_from (leadingZeros bs) bs)). lia. }
      destruct (Z.eqb_spec (be_uint (slice_from (leadingZeros bs) bs)) 0); [lia|].
      rewrite big_Bytes_be_uint by (right; exact Hx). reflexivity.
Qed.

Lemma putint_len_bound (i : Z) : 1 <= len (rlp.putint i) <= 8.
Proof.
  unfold rlp.putint.
  repeat match goal with
  | |- context [?a <? ?b] => destruct (a <? b)
  end; cbv; split; discriminate.
Qed.

Lemma encodeString_len (b : list byte) :
  len (rlp.encodeString b []) <= len b + 9 /\
  (len b < 56 -> len (rlp.encodeString b []) <= len b + 1).
Proof.
  unfold rlp.encodeString, rlp.encodeStringHeader.
  pose proof (len_nonneg b) as Hb.
  destruct (Z.eqb_spec (len b) 1) as [E|E]; cbn [andb].
  - destruct (_ <=? _).
    + change (len ([] ++ [first b])) with 1. lia.
    + destruct (Z.ltb_spec (len b) 56); [|lia].
      cbn [app]. rewrite len_cons. lia.
  - destruct (Z.ltb_spec (len b) 56); cbn [app].
    + rewrite len_cons. lia.
    + rewrite len_cons, len_app.
      pose proof (putint_len_bound (uint64 (len b))). lia.
Qed.

Lemma wf_payload_len (val : value) :
  isBuiltin val = true -> nonNil val = true -> wf val ->
  len (payloadOf val) < 2 ^ 64.
Proof.
  intros Hb Hn Hwf. change (2 ^ 64) with 18446744073709551616.
  assert (Hfix : forall (v : list byte) n, len v = n -> n <= 32 ->
            len (slice_from (leadingZeros v) v) < 18446744073709551616).
  { intros v n Hv Hle. pose proof (trimmed_props v) as (_ & _ & Hl).
    cbv zeta in Hl. lia. }
  assert (Huint : forall k v, 0 <= v < 2 ^ Bits k ->
            len (big.Bytes v) < 18446744073709551616).
  { intros k v Hv. pose proof (Bits_pow k) as [_ Hle].
    destruct (Z.eq_dec v 0) as [->|Hv0].
    - change (big.Bytes 0) with (@nil byte). change (len (@nil byte)) with 0. lia.
    - rewrite big_Bytes_putint by lia. pose proof (putint_len_bound v). lia. }
  destruct val as [v|[v|]|v|[v|]|v|[v|]|k v|k [v|]|v|[v|]|v|[v|]|name enc dec|];
    try discriminate Hb; try discriminate Hn; cbn [wf payloadOf] in *.
  - apply (Hfix v 32 Hwf). lia.
  - apply (Hfix v 32 Hwf). lia.
  - apply (Hfix v 20 Hwf). lia.
  - apply (Hfix v 20 Hwf). lia.
  - change (2 ^ 63) with 9223372036854775808 in Hwf. unfold byte in *. lia.
  - change (2 ^ 63) with 9223372036854775808 in Hwf. unfold byte in *. lia.
  - apply (Huint k v Hwf).
  - apply (Huint k v Hwf).
  - destruct v; [change (len [Byte.x01]) with 1 | change (len (@nil byte)) with 0]; lia.
  - destruct v; [change (len [Byte.x01]) with 1 | change (len (@nil byte)) with 0]; lia.
  - change (2 ^ 63) with 9223372036854775808 in Hwf. unfold byte in *. lia.
Qed.

Lemma big_Bytes_nil (v : Z) : 0 <= v -> (len (big.Bytes v) =? 0) = (v =? 0).
Proof.
  intros Hv. destruct (Z.eqb_spec v 0) as [->|E]; [reflexivity|].
  rewrite big_Bytes_positive by lia.
  pose proof (minimal_be v ltac:(lia)) as (_ & H1 & _). cbv zeta in H1.
  apply Z.eqb_neq. lia.
Qed.

(** What [encodeStorage] returns, through [payloadOf]: nothing for an
    empty payload, the envelope of the payload otherwise. *)
Lemma encode_by_payload (val : value) :
  isBuiltin val = true -> nonNil val = true -> wf val -> nonNegative val ->
  encodeStorage val
  = Ok (if len (payloadOf val) =? 0 then [] else rlp.encodeString (payloadOf val) []).
Proof.
  intros Hb Hn Hwf Hpos.
  assert (Htrim : forall v, encodeBytesTrimmed v
            = Ok (if len (slice_from (leadingZeros v) v) =? 0 then []
                  else rlp.encodeString (slice_from (leadingZeros v) v) [])).
  { intros v. rewrite encode_trimmed_form. cbv zeta. destruct (_ =? 0); reflexivity. }
  assert (Hstr : forall s, encodeString s
            = Ok (if len (list_byte_of_string s) =? 0 then []
                  else rlp.encodeString (list_byte_of_string s) [])).
  { intros s. unfold encodeString. destruct s as [|c s]; [reflexivity|].
    cbn [String.eqb]. cbn [rlp_EncodeToBytes geth].
    unfold rlp.EncodeToBytes, rlp.encode. rewrite writeString_encodeString.
    destruct (Z.eqb_spec (len (list_byte_of_string (String c s))) 0) as [E|E];
      [|reflexivity].
    apply len_zero_nil in E. discriminate E. }
  assert (Huint : forall k v, 0 <= v < 2 ^ Bits k ->
            encodeUint (uint64 v)
            = Ok (if len (big.Bytes v) =? 0 then [] else rlp.encodeString (big.Bytes v) [])).
  { intros k v Hv. pose proof (Bits_pow k) as [_ Hle].
    rewrite encode_uint_form, big_Bytes_nil by lia.
    destruct (Z.eqb_spec v 0); [reflexivity|].
    rewrite big_Bytes_putint by lia. reflexivity. }
  assert (Hbool : forall b, encodeBool b
            = Ok (if len (if b then [Byte.x01] else []) =? 0 then []
                  else rlp.encodeString (if b then [Byte.x01] else []) [])).
  { intros [|]; reflexivity. }
  destruct val as [v|[v|]|v|[v|]|v|[v|]|k v|k [v|]|v|[v|]|v|[v|]|name enc dec|];
    try discriminate Hb; try discriminate Hn;
    cbn [wf nonNegative payloadOf] in *; cbn [encodeStorage deref];
    auto.
  - eapply Huint; eassumption.
  - eapply Huint; eassumption.
  - pose proof (encode_big_form v Hpos) as H. cbn [encodeStorage deref] in H.
    rewrite H, big_Bytes_nil by exact Hpos.
    destruct (v =? 0); reflexivity.
Qed.

Lemma payload_empty_iff_zero (val : value) :
  isBuiltin val = true -> nonNil val = true -> wf val -> nonNegative val ->
  (len (payloadOf val) =? 0) = true <-> pointerTo val = fresh val.
Proof.
  intros Hb Hn Hwf Hpos.
  assert (Hfix : forall (v : list byte) n, len v = n ->
            ((len (slice_from (leadingZeros v) v) =? 0) = true <-> v = thor.zeroBytes n)).
  { intros v n Hv. split.
    - intros H. apply Z.eqb_eq in H. apply all_zero_trimmed; assumption.
    - intros ->.
      pose proof (trimmed_props (thor.zeroBytes n)) as (Hmin & Hval & _).
      cbv zeta in *.
      destruct Hmin as [E|Hx]; [rewrite E; reflexivity|].
      exfalso. pose proof (be_uint_lower _ Hx) as Hlo.
      assert (be_uint (thor.zeroBytes n) = 0).
      { unfold thor.zeroBytes. clear. induction (Z.to_nat n) as [|m IH]; [reflexivity|].
        cbn [repeat]. rewrite be_uint_cons, IH. reflexivity. }
      assert (0 < 256 ^ (len (slice_from (leadingZeros (thor.zeroBytes n)) (thor.zeroBytes n)) - 1)).
      { apply Z.pow_pos_nonneg; [lia|].
        destruct (slice_from _ _) as [|y l]; [exfalso; apply Hx; reflexivity|].
        rewrite len_cons. pose proof (len_nonneg l). lia. }
      rewrite Hval in Hlo. lia. }
  assert (Hstr : forall s : string,
            (len (list_byte_of_string s) =? 0) = true <-> s = ""%string).
  { intros [|c s]; split; try reflexivity; intros H; discriminate H. }
  assert (Hnum : forall v, 0 <= v -> (len (big.Bytes v) =? 0) = true <-> v = 0).
  { intros v Hv. rewrite big_Bytes_nil by exact Hv. apply Z.eqb_eq. }
  assert (Hinj1 : forall (A : Type) (a b : A), Some a = Some b <-> a = b)
    by (intros A a b; split; congruence).
  destruct val as [v|[v|]|v|[v|]|v|[v|]|k v|k [v|]|v|[v|]|v|[v|]|name enc dec|];
    try discriminate Hb; try discriminate Hn;
    unfold fresh; cbn [wf nonNegative payloadOf pointerTo zeroOf] in *.
  - rewrite (Hfix v 32 Hwf). split; congruence.
  - rewrite (Hfix v 32 Hwf). split; congruence.
  - rewrite (Hfix v 20 Hwf). split; congruence.
  - rewrite (Hfix v 20 Hwf). split; congruence.
  - rewrite Hstr. split; congruence.
  - rewrite Hstr. split; congruence.
  - rewrite Hnum by lia. split; congruence.
  - rewrite Hnum by lia. split; congruence.
  - destruct v; split; intros H; try reflexivity; discriminate H.
  - destruct v; split; intros H; try reflexivity; discriminate H.
  - rewrite Hnum by lia. split; congruence.
Qed.

(** The round trip of the codec for every built-in value, in one
    statement. *)
Lemma roundtrip_builtin (val : value) :
  isBuiltin val = true -> nonNil val = true -> wf val -> nonNegative val ->
  exists data,
    encodeStorage val = Ok data /\
    decodeStorage data (fresh val) = Ok (pointerTo val).
Proof.
  intros Hb Hn Hwf Hpos.
  destruct val as [v|[v|]|v|[v|]|v|[v|]|k v|k [v|]|v|[v|]|v|[v|]|name enc dec|];
    try discriminate Hb; try discriminate Hn;
    first [ apply roundtrip_big; assumption
          | match goal with
            | |- context [PBytes32 (Some ?x)] => apply (roundtrip_value_form (VBytes32 x))
            | |- context [PAddress (Some ?x)] => apply (roundtrip_value_form (VAddress x))
            | |- context [PString (Some ?x)] => apply (roundtrip_value_form (VString x))
            | |- context [PUint ?k (Some ?x)] => apply (roundtrip_value_form (VUint k x))
            | |- context [PBool (Some ?x)] => apply (roundtrip_value_form (VBool x))
            end; [reflexivity | exact Hwf]
          | apply roundtrip_value_form; [reflexivity | exact Hwf] ].
Qed.

Lemma not_nonNegative (val : value) :
  isBuiltin val = true -> nonNil val = true -> ~ nonNegative val ->
  exists v, val = PBigInt (Some v) /\ v < 0.
Proof.
  intros Hb Hn Hneg.
  destruct val as [v|[v|]|v|[v|]|v|[v|]|k v|k [v|]|v|[v|]|v|[v|]|name enc dec|];
    try discriminate Hb; try discriminate Hn;
    try (exfalso; apply Hneg; exact I).
  exists v. split; [reflexivity|]. cbn [nonNegative] in Hneg. lia.
Qed.

Lemma nonNegative_dec (val : value) : nonNegative val \/ ~ nonNegative val.
Proof.
  destruct val as [v|[v|]|v|[v|]|v|[v|]|k v|k [v|]|v|[v|]|v|[v|]|name enc dec|];
    cbn [nonNegative]; auto.
  destruct (Z_le_gt_dec 0 v); [left | right]; lia.
Qed.

(** ** The outcome of [encodeStorage] *)

(** X1. The outcome of [encodeStorage] by the value: it panics exactly on
    a nil pointer and on the nil interface; on any other value it returns,
    an error exactly when the type is not built-in or the value is a
    negative big integer, and the bytes otherwise. No length or range of
    the value matters for that. *)
Theorem encode_outcome (val : value) :
  match encodeStorage val with
  | Panic => nonNil val = false
  | Err _ => nonNil val = true /\ (isBuiltin val = false \/ ~ nonNegative val)
  | Ok _ => nonNil val = true /\ isBuiltin val = true /\ nonNegative val
  end.
Proof.
  assert (Htrim : forall v, exists d, encodeBytesTrimmed v = Ok d).
  { intros v. rewrite encode_trimmed_form. cbv zeta. destruct (_ =? 0); eauto. }
  assert (Hstr : forall s, exists d, encodeString s = Ok d).
  { intros s. unfold encodeString. destruct (String.eqb s ""); [eauto|].
    cbn [rlp_EncodeToBytes geth]. unfold rlp.EncodeToBytes, rlp.encode.
    rewrite writeString_encodeString. eauto. }
  assert (Huint : forall v, exists d, encodeUint v = Ok d).
  { intros v. unfold encodeUint. destruct (v =? 0); [eauto|].
    cbn [rlp_EncodeToBytes geth]. unfold rlp.EncodeToBytes, rlp.encode, rlp.writeUint.
    destruct (v =? 0); [eauto|]. destruct (v <? 128); eauto. }
  assert (Hbool : forall b, exists d, encodeBool b = Ok d).
  { intros [|]; eexists; reflexivity. }
  destruct val as [v|[v|]|v|[v|]|v|[v|]|k v|k [v|]|v|[v|]|v|[v|]|name enc dec|];
    cbn [encodeStorage deref nonNil isBuiltin nonNegative unsupported typeString];
    try reflexivity;
    try (destruct (Htrim v) as [d ->]; auto; fail);
    try (destruct (Hstr v) as [d ->]; auto; fail);
    try (destruct (Huint (uint64 v)) as [d ->]; auto; fail);
    try (destruct (Hbool v) as [d ->]; auto; fail);
    try (split; [reflexivity | left; reflexivity]).
  destruct (Z_le_gt_dec 0 v) as [Hv|Hv].
  - pose proof (encode_big_form v Hv) as H. cbn [encodeStorage deref] in H.
    rewrite H. destruct (v =? 0); auto.
  - pose proof (encode_negative_big v ltac:(lia)) as H.
    cbn [encodeStorage deref] in H. rewrite H.
    split; [reflexivity | right; lia].
Qed.

(** X2. For a well-formed value of a built-in type, [encodeStorage]
    returns the empty byte string if and only if the value is the zero
    value of its type: a value that is not zero is never stored as an
    absent slot. *)
Theorem empty_iff_zero (val : value) :
  isBuiltin val = true -> nonNil val = true -> wf val ->
  (encodeStorage val = Ok [] <-> pointerTo val = fresh val).
Proof.
  intros Hb Hn Hwf.
  destruct (nonNegative_dec val) as [Hpos|Hneg].
  - rewrite encode_by_payload by assumption.
    rewrite <- (payload_empty_iff_zero val Hb Hn Hwf Hpos).
    destruct (len (payloadOf val) =? 0); split; intros H; try reflexivity.
    + injection H as H. exfalso. apply (encodeString_nonempty _ H).
    + discriminate H.
  - destruct (not_nonNegative val Hb Hn Hneg) as (v & -> & Hv).
    rewrite encode_negative_big by exact Hv. unfold fresh.
    cbn [pointerTo zeroOf]. split; intros H; [discriminate H|].
    injection H as H. lia.
Qed.

Lemma empty_iff_zero_witness :
  encodeStorage (VUint Kuint8 0) = Ok [] <-> PUint Kuint8 (Some 0) = PUint Kuint8 (Some 0).
Proof.
  apply (empty_iff_zero (VUint Kuint8 0)).
  - reflexivity.
  - reflexivity.
  - cbn. split; [discriminate | reflexivity].
Defined.

(** X3. The encoding is injective on each built-in type: two well-formed
    values of the same type (big integers non-negative) with the same
    encoding are the same value, whether given by value or by pointer. *)
Theorem encoding_injective (v1 v2 : value) :
  isBuiltin v1 = true -> nonNil v1 = true -> wf v1 -> nonNegative v1 ->
  isBuiltin v2 = true -> nonNil v2 = true -> wf v2 -> nonNegative v2 ->
  fresh v1 = fresh v2 ->
  encodeStorage v1 = encodeStorage v2 ->
  pointerTo v1 = pointerTo v2.
Proof.
  intros Hb1 Hn1 Hw1 Hp1 Hb2 Hn2 Hw2 Hp2 Hty Henc.
  destruct (roundtrip_builtin v1 Hb1 Hn1 Hw1 Hp1) as (d1 & He1 & Hd1).
  destruct (roundtrip_builtin v2 Hb2 Hn2 Hw2 Hp2) as (d2 & He2 & Hd2).
  rewrite He1, He2 in Henc. injection Henc as ->.
  rewrite Hty, Hd2 in Hd1. injection Hd1 as Hd1. symmetry. exact Hd1.
Qed.

Lemma encoding_injective_witness :
  pointerTo (VUint Kuint16 300) = pointerTo (PUint Kuint16 (Some 300)).
Proof.
  apply (encoding_injective (VUint Kuint16 300) (PUint Kuint16 (Some 300)));
    try reflexivity; try exact I; cbn; split; (discriminate || reflexivity).
Defined.

(** X4. Every non-empty encoding is exactly one scalar entry of the
    envelope, with nothing after it, and the entry's payload is the payload
    of the value: the bytes [encodeStorage] stores can be read back with
    the envelope's general-purpose [Split]. *)
Theorem encoding_is_single_entry (val : value) (data : list byte) :
  isBuiltin val = true -> nonNil val = true -> wf val ->
  encodeStorage val = Ok data -> data <> [] ->
  singleScalarEntry data /\
  exists k, rlp.Split data = Ok (k, payloadOf val, []).
Proof.
  intros Hb Hn Hwf He Hne.
  assert (Hpos : nonNegative val).
  { destruct (nonNegative_dec val) as [H|H]; [exact H|].
    destruct (not_nonNegative val Hb Hn H) as (v & -> & Hv).
    rewrite encode_negative_big in He by exact Hv. discriminate He. }
  rewrite encode_by_payload in He by assumption.
  destruct (len (payloadOf val) =? 0); injection He as <-; [contradiction|].
  pose proof (wf_payload_len val Hb Hn Hwf) as Hlen.
  pose proof (Split_encoded _ _ (encodeString_cases _ Hlen)) as Hs.
  split.
  - exists (stringKind (payloadOf val)), (payloadOf val). split; [exact Hs|].
    unfold stringKind. destruct (_ && _); discriminate.
  - exists (stringKind (payloadOf val)). exact Hs.
Qed.

Lemma encoding_is_single_entry_witness :
  singleScalarEntry [Byte.x82; Byte.x01; Byte.x2c] /\
  exists k, rlp.Split [Byte.x82; Byte.x01; Byte.x2c]
            = Ok (k, payloadOf (VUint Kuint64 300), []).
Proof.
  apply (encoding_is_single_entry (VUint Kuint64 300) [Byte.x82; Byte.x01; Byte.x2c]).
  - reflexivity.
  - reflexivity.
  - cbn. split; [discriminate | reflexivity].
  - reflexivity.
  - discriminate.
Defined.

(** X5. Length bounds of the encoding: at most 33 bytes for a hash, 21 for
    an address, one byte more than the width for an unsigned integer, one
    byte for a bool, and at most nine bytes more than the payload for a
    string or a big integer. *)
Theorem encoded_length_bound (val : value) (data : list byte) :
  isBuiltin val = true -> nonNil val = true -> wf val ->
  encodeStorage val = Ok data ->
  len data <= maxEncodedLen val.
Proof.
  intros Hb Hn Hwf He.
  assert (Hpos : nonNegative val).
  { destruct (nonNegative_dec val) as [H|H]; [exact H|].
    destruct (not_nonNegative val Hb Hn H) as (v & -> & Hv).
    rewrite encode_negative_big in He by exact Hv. discriminate He. }
  rewrite encode_by_payload in He by assumption.
  pose proof (encodeString_len (payloadOf val)) as [H9 H1].
  pose proof (len_nonneg (payloadOf val)) as H0.
  assert (Hfix : forall (v : list byte) n, len v = n ->
            len (slice_from (leadingZeros v) v) <= n).
  { intros v n Hv. pose proof (trimmed_props v) as (_ & _ & Hl). cbv zeta in Hl. lia. }
  assert (Huint : forall k v, 0 <= v < 2 ^ Bits k -> len (big.Bytes v) <= Bits k / 8).
  { intros k v Hv. pose proof (Bits_pow k) as [Hp Hle].
    pose proof (Bits_range k).
    destruct (Z.eq_dec v 0) as [->|Hv0].
    - change (len (big.Bytes 0)) with 0. lia.
    - rewrite big_Bytes_putint by lia. apply putint_len_le; lia. }
  assert (Hd : len data <= len (payloadOf val) + 9 /\
               (len (payloadOf val) < 56 -> len data <= len (payloadOf val) + 1)).
  { destruct (Z.eqb_spec (len (payloadOf val)) 0) as [E|E]; injection He as <-.
    - change (len (@nil byte)) with 0. lia.
    - split; [exact H9 | exact H1]. }
  destruct Hd as [Hd9 Hd1].
  destruct val as [v|[v|]|v|[v|]|v|[v|]|k v|k [v|]|v|[v|]|v|[v|]|name enc dec|];
    try discriminate Hb; try discriminate Hn;
    cbn [wf payloadOf maxEncodedLen] in *; try exact Hd9.
  - pose proof (Hfix v 32 Hwf). lia.
  - pose proof (Hfix v 32 Hwf). lia.
  - pose proof (Hfix v 20 Hwf). lia.
  - pose proof (Hfix v 20 Hwf). lia.
  - pose proof (Huint k v Hwf). pose proof (Bits_range k). lia.
  - pose proof (Huint k v Hwf). pose proof (Bits_range k). lia.
  - destruct v.
    + change (len [Byte.x01]) with 1 in *.
      destruct (Z.eqb_spec 1 0) as [E|E]; [discriminate E|].
      injection He as <-. cbv. discriminate.
    + change (len (@nil byte)) with 0 in *. lia.
  - destruct v.
    + change (len [Byte.x01]) with 1 in *.
      destruct (Z.eqb_spec 1 0) as [E|E]; [discriminate E|].
      injection He as <-. cbv. discriminate.
    + change (len (@nil byte)) with 0 in *. lia.
Qed.

Lemma encoded_length_bound_witness :
  len [Byte.x82; Byte.x01; Byte.x2c] <= maxEncodedLen (VUint Kuint16 300).
Proof.
  apply (encoded_length_bound (VUint Kuint16 300) [Byte.x82; Byte.x01; Byte.x2c]).
  - reflexivity.
  - reflexivity.
  - cbn. split; [discriminate | reflexivity].
  - reflexivity.
Defined.

(** X6. A hash, an address, an unsigned integer and a bool are encoded
    exactly as the big integer they denote (the big-endian value of the
    bytes, one for [true]): the typed forms of one number share one stored
    representation. *)
Theorem stored_as_number (val : value) (v : Z) :
  denotes val = Some v -> wf val ->
  encodeStorage val = encodeStorage (PBigInt (Some v)).
Proof.
  intros Hd Hwf.
  assert (Huint : forall k, 0 <= v < 2 ^ Bits k ->
            encodeUint (uint64 v) = encodeStorage (PBigInt (Some v))).
  { intros k Hv. pose proof (Bits_pow k) as [_ Hle].
    rewrite encode_uint_form, encode_big_form by lia.
    destruct (Z.eqb_spec v 0); [reflexivity|].
    rewrite big_Bytes_putint by lia. reflexivity. }
  destruct val as [x|[x|]|x|[x|]|x|[x|]|k x|k [x|]|x|[x|]|x|[x|]|name enc dec|];
    try discriminate Hd; cbn [denotes] in Hd; injection Hd as <-;
    cbn [wf] in Hwf;
    try (apply encode_trimmed_as_big);
    try (apply (Huint k Hwf));
    try reflexivity.
  - destruct x; reflexivity.
  - destruct x; reflexivity.
Qed.

Lemma stored_as_number_witness :
  encodeStorage (VBytes32 (repeat Byte.x00 30 ++ [Byte.x01; Byte.x2c]))
  = encodeStorage (PBigInt (Some 300)).
Proof.
  apply (stored_as_number (VBytes32 (repeat Byte.x00 30 ++ [Byte.x01; Byte.x2c])) 300);
    reflexivity.
Defined.

(** X7. Unsigned integers of every width are encoded by one rule, so a
    stored value can be read at another width: decoding succeeds with the
    same number when it fits the destination's width, and fails with
    "input string too long" when it does not; the number is never
    truncated. *)
Theorem uint_width_conversion (k k' : uintKind) (v : Z) (old : Z) :
  0 <= v < 2 ^ Bits k ->
  exists data,
    encodeStorage (VUint k v) = Ok data /\
    (v < 2 ^ Bits k' ->
     decodeStorage data (PUint k' (Some old)) = Ok (PUint k' (Some v))) /\
    (2 ^ Bits k' <= v ->
     decodeStorage data (PUint k' (Some old))
     = Err (decodeError "input string too long" (uintName k'))).
Proof.
  intros Hv. pose proof (Bits_pow k) as [_ Hle].
  pose proof (Bits_pow k') as [Hp' Hle'].
  pose proof (Bits_range k') as Hr'.
  destruct (Z_lt_le_dec v (2 ^ Bits k')) as [Hfit|Hbig].
  - destruct (roundtrip_value_form (VUint k' v) eq_refl ltac:(cbn [wf]; lia))
      as (data & He & Hdec).
    exists data. split; [exact He|]. split; [|lia].
    intros _. exact Hdec.
  - assert (H256 : 256 <= v).
    { destruct (Bits_cases k') as [H|[H|[H|H]]]; rewrite H in Hp';
        rewrite Hp' in Hbig;
        [change (256 ^ 1) with 256 in Hbig
        |change (256 ^ 2) with 65536 in Hbig
        |change (256 ^ 4) with 4294967296 in Hbig
        |change (256 ^ 8) with 18446744073709551616 in Hbig]; lia. }
    cbn [encodeStorage]. rewrite encode_uint_form by lia.
    destruct (Z.eqb_spec v 0); [lia|].
    eexists. split; [reflexivity|]. split; [lia|]. intros _.
    pose proof (putint_minimal v ltac:(lia)) as (Hlen & Hval & Hfirst & Hne).
    cbv zeta in *.
    assert (Hlong : Bits k' / 8 < len (rlp.putint v)).
    { destruct (Z_lt_le_dec (Bits k' / 8) (len (rlp.putint v))) as [H|H]; [exact H|].
      exfalso. pose proof (be_uint_range (rlp.putint v)) as Hr. rewrite Hval in Hr.
      assert (256 ^ len (rlp.putint v) <= 256 ^ (Bits k' / 8))
        by (apply Z.pow_le_mono_r; lia).
      lia. }
    destruct (writeUint_encoded v ltac:(lia)) as (w & Hw & Henc).
    rewrite writeUint_encodeString in Hw by lia. injection Hw as Hw.
    rewrite Hw. clear Hw.
    cbn [decodeStorage]. rewrite (encoded_nonempty _ _ Henc).
    cbn [rlp_DecodeBytes geth].
    unfold rlp.DecodeBytes, rlp.Decode, rlp.decoder, rlp.decodeUint, rlp.wrapped.
    unfold rlp.uint, rlp.bind. rewrite StreamKind_eq.
    destruct Henc as [x Hb Hx | h Hl Hns Hh | h Hl Hh]; [| |lia].
    + exfalso. rewrite Hb in Hval. rewrite be_uint_single in Hval. lia.
    + rewrite readKind_cons.
      destruct (Z.ltb_spec (Zbyte h) 0x80); [lia|].
      destruct (Z.ltb_spec (Zbyte h) 0xB8); [|lia].
      cbn [rlp.r]. replace (Zbyte h - 0x80) with (len (rlp.putint v)) by lia.
      rewrite Z.ltb_irrefl. cbv iota beta.
      destruct (Z.ltb_spec (Bits k' / 8) (len (rlp.putint v))); [|lia].
      reflexivity.
Qed.

Lemma uint_width_conversion_witness :
  exists data,
    encodeStorage (VUint Kuint64 300) = Ok data /\
    (300 < 2 ^ Bits Kuint8 ->
     decodeStorage data (PUint Kuint8 (Some 7)) = Ok (PUint Kuint8 (Some 300))) /\
    (2 ^ Bits Kuint8 <= 300 ->
     decodeStorage data (PUint Kuint8 (Some 7))
     = Err (decodeError "input string too long" (uintName Kuint8))).
Proof.
  apply (uint_width_conversion Kuint64 Kuint8 300 7).
  cbn. split; [discriminate | reflexivity].
Defined.

(** ** What the decoder accepts is canonical *)

Lemma len_slice_to_le {A} (n : Z) (l : list A) : len (slice_to n l) <= len l.
Proof. unfold len, slice_to. rewrite length_firstn. lia. Qed.

Lemma len_slice_to {A} (a : Z) (l : list A) :
  0 <= a <= len l -> len (slice_to a l) = a.
Proof.
  intros H. unfold slice_to, len in *. rewrite length_firstn. lia.
Qed.

Lemma len_slice_from_le {A} (n : Z) (l : list A) : len (slice_from n l) <= len l.
Proof. unfold len, slice_from. rewrite length_skipn. lia. Qed.

Lemma slice_to_from_all {A} (n : Z) (l : list A) :
  0 <= n -> slice_from n l = [] -> slice_to n l = l.
Proof.
  intros Hn H. unfold slice_to, slice_from in *.
  rewrite <- (firstn_skipn (Z.to_nat n) l) at 2. rewrite H. symmetry. apply app_nil_r.
Qed.

(** A successful [readKind] of raw.go, read backwards. *)
Lemma rawReadKind_string_inv (data : list byte) (k : rlp.Kind) (ts cs : Z) :
  len data < 2 ^ 63 ->
  rlp.rawReadKind data = Ok (k, ts, cs) -> k <> rlp.List ->
  exists b rest, data = b :: rest /\
    ((k = rlp.Byte /\ Zbyte b < 0x80 /\ ts = 0 /\ cs = 1) \/
     (k = rlp.String /\ 0x80 <= Zbyte b < 0xB8 /\ ts = 1 /\ cs = Zbyte b - 0x80 /\
      cs <= len rest /\ ~ (cs = 1 /\ Zbyte (first rest) < 128)) \/
     (k = rlp.String /\ 0xB8 <= Zbyte b < 0xC0 /\ ts = Zbyte b - 0xB7 + 1 /\
      Zbyte b - 0xB7 <= len rest /\ cs = be_uint (slice_to (Zbyte b - 0xB7) rest) /\
      56 <= cs /\ Zbyte (first rest) <> 0 /\ cs <= len rest - (Zbyte b - 0xB7))).
Proof.
  intros Hlen. change (2 ^ 63) with 9223372036854775808 in Hlen.
  assert (H64 : forall x, 0 <= x <= len data -> uint64 x = x).
  { intros x Hx. apply uint64_small. change (2 ^ 64) with 18446744073709551616. lia. }
  destruct data as [|b rest]; [discriminate|].
  intros H Hk. exists b, rest. split; [reflexivity|].
  pose proof (Zbyte_range b) as Hb. pose proof (len_nonneg rest) as Hrest.
  rewrite len_cons in *. unfold rlp.rawReadKind in H.
  rewrite len_cons, slice_from_1_cons in H.
  destruct (Z.ltb_spec (Zbyte b) 0x80).
  { rewrite H64 in H by lia.
    destruct (Z.ltb_spec (1 + len rest - 0) 1); [discriminate|].
    injection H as <- <- <-. left. repeat split; lia. }
  destruct (Z.ltb_spec (Zbyte b) 0xB8).
  { right. left.
    destruct (Z.eqb_spec (Zbyte b - 0x80) 1) as [E1|E1]; cbn [andb] in H.
    - destruct (Z.ltb_spec 1 (1 + len rest)) as [Hl|Hl]; cbn [andb] in H.
      + destruct (Z.ltb_spec (Zbyte (first rest)) 128); [discriminate|].
        rewrite H64 in H by lia.
        destruct (Z.ltb_spec (1 + len rest - 1) (Zbyte b - 0x80)); [discriminate|].
        injection H as <- <- <-. repeat split; lia.
      + rewrite H64 in H by lia.
        destruct (Z.ltb_spec (1 + len rest - 1) (Zbyte b - 0x80)); [discriminate|].
        lia.
    - rewrite H64 in H by lia.
      destruct (Z.ltb_spec (1 + len rest - 1) (Zbyte b - 0x80)); [discriminate|].
      injection H as <- <- <-. repeat split; lia. }
  destruct (Z.ltb_spec (Zbyte b) 0xC0).
  { right. right. unfold rlp.readSize in H.
    destruct (Z.ltb_spec (len rest) (Zbyte b - 0xB7)); [discriminate|].
    destruct (Z.leb_spec 1 (Zbyte b - 0xB7)); [|lia].
    destruct (Z.leb_spec (Zbyte b - 0xB7) 8); [|lia].
    cbn [andb] in H.
    destruct (Z.ltb_spec (be_uint (slice_to (Zbyte b - 0xB7) rest)) 56);
      [discriminate|].
    destruct (Z.eqb_spec (Zbyte (first rest)) 0); [discriminate|].
    cbn [orb] in H. rewrite H64 in H by lia.
    destruct (Z.ltb_spec (1 + len rest - (Zbyte b - 0xB7 + 1))
                (be_uint (slice_to (Zbyte b - 0xB7) rest))); [discriminate|].
    injection H as <- <- <-. repeat split; lia. }
  exfalso.
  destruct (Z.ltb_spec (Zbyte b) 0xF8).
  { destruct (_ <? _) in H; [discriminate|]. injection H as <- _ _.
    apply Hk. reflexivity. }
  destruct (rlp.readSize _ _) in H; try discriminate.
  destruct (_ <? _) in H; [discriminate|]. injection H as <- _ _.
  apply Hk. reflexivity.
Qed.

(** An input that [Split] takes as one scalar entry with nothing after it
    is the canonical encoding of the entry's content. *)
Lemma Split_canonical (data content : list byte) (k : rlp.Kind) :
  len data < 2 ^ 63 ->
  rlp.Split data = Ok (k, content, []) -> k <> rlp.List ->
  data = rlp.encodeString content [].
Proof.
  intros Hlen Hs Hk. unfold rlp.Split in Hs.
  destruct (rlp.rawReadKind data) as [[[k0 ts] cs]|e|] eqn:Hr; try discriminate.
  injection Hs as -> Hc Hrest.
  destruct (rawReadKind_string_inv _ _ _ _ Hlen Hr Hk)
    as (b & rest & -> & [(-> & Hb & -> & ->) |
                         [(-> & Hb & -> & -> & Hcs & Hcanon) |
                          (-> & Hb & -> & Hn & -> & H56 & Hfirst & Hcs)]]).
  - (* a single byte *)
    change (slice_from (0 + 1) (b :: rest)) with rest in Hrest. subst rest.
    change (slice_to 1 (slice_from 0 [b])) with [b] in Hc. subst content.
    unfold rlp.encodeString. change (len [b]) with 1. cbn [first hd Z.eqb Pos.eqb andb].
    destruct (Z.leb_spec (Zbyte b) 0x7F); [reflexivity | lia].
  - (* a short string *)
    pose proof (len_nonneg rest) as Hrest0.
    rewrite slice_from_succ_cons in Hrest by lia.
    rewrite slice_from_1_cons in Hc.
    assert (Hnn : 0 <= Zbyte b - 0x80) by lia.
    rewrite (slice_to_from_all _ _ Hnn Hrest) in Hc. subst content.
    assert (Hl : len rest = Zbyte b - 0x80).
    { pose proof (len_slice_from (Zbyte b - 0x80) rest ltac:(lia)) as H.
      rewrite Hrest in H. change (len (@nil byte)) with 0 in H. lia. }
    unfold rlp.encodeString, rlp.encodeStringHeader. rewrite Hl.
    assert (Hc : (Zbyte b - 0x80 =? 1) && (Zbyte (first rest) <=? 0x7F) = false).
    { destruct (Z.eqb_spec (Zbyte b - 0x80) 1); [|reflexivity].
      destruct (Z.leb_spec (Zbyte (first rest)) 0x7F); [|reflexivity].
      exfalso. apply Hcanon. split; lia. }
    rewrite Hc. destruct (Z.ltb_spec (Zbyte b - 0x80) 56); [|lia].
    cbn [app]. replace (0x80 + (Zbyte b - 0x80)) with (Zbyte b) by lia.
    rewrite byteZ_Zbyte. reflexivity.
  - (* a long string *)
    set (n := Zbyte b - 0xB7) in *.
    set (sz := slice_to n rest) in *.
    pose proof (len_nonneg rest) as Hrest0.
    assert (Hsz : len sz = n) by (apply len_slice_to; lia).
    pose proof (be_uint_range sz) as Hszr.
    replace (n + 1 + be_uint sz) with (1 + (n + be_uint sz)) in Hrest by lia.
    rewrite slice_from_succ_cons in Hrest by lia.
    rewrite <- slice_from_slice_from in Hrest by lia.
    replace (n + 1) with (1 + n) in Hc by lia.
    rewrite slice_from_succ_cons in Hc by lia.
    assert (Hnn : 0 <= be_uint sz) by lia.
    rewrite (slice_to_from_all _ _ Hnn Hrest) in Hc.
    assert (Hl : len content = be_uint sz).
    { pose proof (len_slice_from (be_uint sz) (slice_from n rest)) as H.
      rewrite len_slice_from in H by lia. rewrite Hrest in H.
      change (len (@nil byte)) with 0 in H. rewrite <- Hc.
      rewrite len_slice_from by lia. lia. }
    assert (Hdata : rest = sz ++ content).
    { rewrite <- Hc. subst sz. unfold slice_to, slice_from.
      symmetry. apply firstn_skipn. }
    rewrite Hdata.
    unfold rlp.encodeString, rlp.encodeStringHeader. rewrite Hl.
    destruct (Z.eqb_spec (be_uint sz) 1); [lia|]. cbn [andb].
    destruct (Z.ltb_spec (be_uint sz) 56); [lia|].
    assert (H64 : be_uint sz < 2 ^ 64).
    { change (2 ^ 63) with 9223372036854775808 in Hlen.
      change (2 ^ 64) with 18446744073709551616.
      rewrite len_cons in Hlen. lia. }
    rewrite uint64_small by lia.
    assert (Hfsz : Zbyte (first sz) <> 0).
    { subst sz. rewrite first_slice_to by lia. exact Hfirst. }
    rewrite putint_be_uint by (try exact Hfsz; lia).
    cbn [app]. rewrite Hsz.
    replace (0xB7 + n) with (Zbyte b) by (subst n; lia).
    rewrite byteZ_Zbyte. reflexivity.
Qed.

Lemma readUint_first (n : Z) (rest : list byte) (bv : byte) (v : Z) (s' : rlp.Stream) :
  2 <= n <= 8 ->
  rlp.readUint n (rlp.mkStream rest bv) = Ok (v, s') -> Zbyte (first rest) <> 0.
Proof.
  intros Hn. unfold rlp.readUint.
  destruct (Z.eqb_spec n 0); [lia|]. destruct (Z.eqb_spec n 1); [lia|].
  destruct (Z.ltb_spec 8 n); [lia|].
  unfold rlp.bind, rlp.readFull, rlp.fail, rlp.ret. cbn [rlp.r rlp.byteval].
  destruct (Z.ltb_spec (len rest) n); [discriminate|].
  rewrite first_slice_to by lia.
  destruct (Z.eqb_spec (Zbyte (first rest)) 0); [discriminate|].
  intros _. assumption.
Qed.

(** What the stream's [uint] accepts: one scalar entry whose content is the
    minimal big-endian form of the number, within the width asked for. *)
Lemma uint_accepts (data : list byte) (bv : byte) (maxbits v : Z) (s' : rlp.Stream) :
  len data < 2 ^ 63 -> 1 <= maxbits / 8 <= 8 ->
  rlp.uint maxbits (rlp.mkStream data bv) = Ok (v, s') ->
  exists k content,
    k <> rlp.List /\ rlp.Split data = Ok (k, content, rlp.r s') /\
    v = be_uint content /\ (content = [] \/ Zbyte (first content) <> 0) /\
    len content <= maxbits / 8.
Proof.
  intros Hlen Hmax. unfold rlp.uint, rlp.bind.
  destruct (rlp.StreamKind _) as [[[k size] s1]|e|] eqn:Hk; try discriminate.
  destruct (StreamKind_sound _ _ _ _ _ Hlen Hk)
    as [(-> & -> & Hdata & Hraw) | (Hnb & ts & Hts & Hr & Hsize & Hraw)].
  - destruct (Z.eqb_spec (Zbyte (rlp.byteval s1)) 0) as [E|E]; [discriminate|].
    intros Heq. injection Heq as <- <-.
    exists rlp.Byte, [rlp.byteval s1]. split; [discriminate|].
    split; [rewrite (Split_of_rawReadKind _ _ _ _ Hraw), Hdata; reflexivity|].
    split; [rewrite be_uint_single; reflexivity|].
    split; [right; exact E|]. change (len [rlp.byteval s1]) with 1. lia.
  - destruct k; [contradiction| |discriminate].
    unfold rlp.fail.
    destruct (Z.ltb_spec (maxbits / 8) size); [discriminate|].
    rewrite Zbyte_byteZ_small by lia.
    assert (Hl1 : len (rlp.r s1) = len data - ts)
      by (rewrite Hr; apply len_slice_from; lia).
    destruct (Z.eq_dec size 0) as [E0|E0].
    + subst size. change (rlp.readUint 0 s1) with (@Ok (Z * rlp.Stream) (0, s1)).
      cbn [Z.ltb Z.compare andb]. intros Heq. injection Heq as <- <-.
      destruct Hraw as [Hraw | (_ & Hc & _)]; [|discriminate Hc].
      exists rlp.String, []. split; [discriminate|].
      split; [rewrite (Split_of_rawReadKind _ _ _ _ Hraw), Hr, Z.add_0_r; reflexivity|].
      split; [reflexivity|]. split; [left; reflexivity|].
      change (len (@nil byte)) with 0. lia.
    + destruct s1 as [r1 bv1]. cbn [rlp.r] in *.
      destruct (rlp.readUint size _) as [[v1 s2]|e|] eqn:Hu;
        [| destruct e; discriminate | discriminate].
      assert (Hrange : 1 <= size <= 8) by lia.
      destruct (readUint_sound _ _ _ _ _ Hrange Hu) as (Hn & Hs2 & Hv1 & _).
      destruct (Z.ltb_spec 0 size); [|lia]. cbn [andb].
      destruct (Z.ltb_spec v1 128) as [H128|H128]; [discriminate|].
      intros Heq. injection Heq as <- <-. subst s2. cbn [rlp.r].
      assert (Hclen : len (slice_to size r1) = size) by (apply len_slice_to; lia).
      assert (Hfirst : Zbyte (first (slice_to size r1)) <> 0).
      { destruct (Z.eq_dec size 1) as [E1|E1].
        - subst size. rewrite slice_to_1 in * by lia.
          rewrite be_uint_single in Hv1. cbn [first hd]. lia.
        - rewrite first_slice_to by lia.
          apply (readUint_first size r1 bv1 v1 _ ltac:(lia) Hu). }
      destruct Hraw as [Hraw | (_ & Hc & Hf)].
      * exists rlp.String, (slice_to size r1). split; [discriminate|].
        split.
        { rewrite (Split_of_rawReadKind _ _ _ _ Hraw), Hr.
          rewrite slice_from_slice_from by lia. reflexivity. }
        split; [exact Hv1|]. split; [right; exact Hfirst | lia].
      * exfalso. subst size. rewrite slice_to_1, be_uint_single in Hv1 by lia. lia.
Qed.

Lemma Split_content_len (data content rest : list byte) (k : rlp.Kind) :
  rlp.Split data = Ok (k, content, rest) -> len content <= len data.
Proof.
  unfold rlp.Split.
  destruct (rlp.rawReadKind data) as [[[k0 ts] cs]|e|]; try discriminate.
  intros H. injection H as _ <- _.
  pose proof (len_slice_to_le cs (slice_from ts data)).
  pose proof (len_slice_from_le ts data). lia.
Qed.

(** What [DecodeBytes] accepts, by destination: the input is the canonical
    encoding of the payload of the value decoded, and the value is within
    the range of its type. *)
Lemma DecodeBytes_string_inv (data : list byte) (a s : string) :
  len data < 2 ^ 63 ->
  rlp.DecodeBytes rlp.TString data (Some a) = Ok s ->
  data = rlp.encodeString (list_byte_of_string s) [] /\
  len (list_byte_of_string s) <= len data.
Proof.
  intros Hlen. unfold rlp.DecodeBytes, rlp.Decode, rlp.decoder, rlp.decodeString, rlp.bind.
  destruct (rlp.wrapped rlp.Bytes _ _) as [[b s1]|e|] eqn:Hb; try discriminate.
  apply wrapped_Ok in Hb. unfold rlp.ret.
  destruct (Z.ltb_spec 0 (len (rlp.r s1))) as [Hr|Hr]; [discriminate|].
  intros H. injection H as <-.
  assert (Hnil : rlp.r s1 = [])
    by (apply len_zero_nil; pose proof (len_nonneg (rlp.r s1)); lia).
  destruct (Bytes_sound _ _ _ _ Hlen Hb) as (k & Hk & Hs). rewrite Hnil in Hs.
  rewrite list_byte_of_string_of_list_byte.
  split; [apply (Split_canonical _ _ _ Hlen Hs Hk) | apply (Split_content_len _ _ _ _ Hs)].
Qed.

Lemma DecodeBytes_big_inv (data : list byte) (a v : Z) :
  len data < 2 ^ 63 ->
  rlp.DecodeBytes rlp.TBigInt data (Some a) = Ok v ->
  0 <= v /\ data = rlp.encodeString (big.Bytes v) [] /\ len (big.Bytes v) <= len data.
Proof.
  intros Hlen. unfold rlp.DecodeBytes, rlp.Decode, rlp.decoder, rlp.decodeBigInt, rlp.bind.
  destruct (rlp.wrapped rlp.Bytes _ _) as [[b s1]|e|] eqn:Hb; try discriminate.
  apply wrapped_Ok in Hb. unfold rlp.ret, rlp.fail, big.SetBytes.
  destruct (Z.ltb_spec 0 (len b)) as [Hpos|Hpos]; cbn [andb].
  - destruct (Z.eqb_spec (Zbyte (first b)) 0) as [E|E]; [discriminate|].
    destruct (Z.ltb_spec 0 (len (rlp.r s1))) as [Hr|Hr]; [discriminate|].
    intros H. injection H as <-.
    assert (Hnil : rlp.r s1 = [])
      by (apply len_zero_nil; pose proof (len_nonneg (rlp.r s1)); lia).
    destruct (Bytes_sound _ _ _ _ Hlen Hb) as (k & Hk & Hs). rewrite Hnil in Hs.
    rewrite big_Bytes_be_uint by (right; exact E).
    split; [apply be_uint_range|].
    split; [apply (Split_canonical _ _ _ Hlen Hs Hk) | apply (Split_content_len _ _ _ _ Hs)].
  - destruct (Z.ltb_spec 0 (len (rlp.r s1))) as [Hr|Hr]; [discriminate|].
    intros H. injection H as <-.
    assert (Hnil : rlp.r s1 = [])
      by (apply len_zero_nil; pose proof (len_nonneg (rlp.r s1)); lia).
    assert (Hbnil : b = [])
      by (apply len_zero_nil; pose proof (len_nonneg b); lia).
    subst b.
    destruct (Bytes_sound _ _ _ _ Hlen Hb) as (k & Hk & Hs). rewrite Hnil in Hs.
    change (big.Bytes (be_uint [])) with (@nil byte).
    split; [apply be_uint_range|].
    split; [apply (Split_canonical _ _ _ Hlen Hs Hk) | apply (Split_content_len _ _ _ _ Hs)].
Qed.

Lemma uint_full_inv (data : list byte) (maxbits v : Z) (s1 : rlp.Stream) :
  len data < 2 ^ 63 -> 1 <= maxbits / 8 <= 8 ->
  rlp.uint maxbits (rlp.mkStream data Byte.x00) = Ok (v, s1) -> rlp.r s1 = [] ->
  0 <= v < 256 ^ (maxbits / 8) /\ data = rlp.encodeString (big.Bytes v) [].
Proof.
  intros Hlen Hmax Hu Hnil.
  destruct (uint_accepts _ _ _ _ _ Hlen Hmax Hu)
    as (k & c & Hk & Hs & Hv & Hmin & Hc).
  rewrite Hnil in Hs. subst v.
  pose proof (be_uint_range c) as Hr. pose proof (len_nonneg c).
  assert (256 ^ len c <= 256 ^ (maxbits / 8)) by (apply Z.pow_le_mono_r; lia).
  split; [lia|].
  rewrite big_Bytes_be_uint by exact Hmin.
  apply (Split_canonical _ _ _ Hlen Hs Hk).
Qed.

Lemma DecodeBytes_uint_inv (k : uintKind) (data : list byte) (a v : Z) :
  len data < 2 ^ 63 ->
  rlp.DecodeBytes (rlp.TUint k) data (Some a) = Ok v ->
  0 <= v < 2 ^ Bits k /\ data = rlp.encodeString (big.Bytes v) [].
Proof.
  intros Hlen. unfold rlp.DecodeBytes, rlp.Decode, rlp.decoder, rlp.decodeUint.
  destruct (rlp.wrapped _ _ _) as [[v1 s1]|e|] eqn:Hu; try discriminate.
  apply wrapped_Ok in Hu.
  destruct (Z.ltb_spec 0 (len (rlp.r s1))) as [Hr|Hr]; [discriminate|].
  intros H. injection H as <-.
  assert (Hnil : rlp.r s1 = [])
    by (apply len_zero_nil; pose proof (len_nonneg (rlp.r s1)); lia).
  pose proof (Bits_pow k) as [Hp _].
  assert (Hmax : 1 <= Bits k / 8 <= 8) by (destruct (Bits_cases k) as [H|[H|[H|H]]]; lia).
  rewrite Hp. apply (uint_full_inv _ _ _ _ Hlen Hmax Hu Hnil).
Qed.

Lemma DecodeBytes_bool_inv (data : list byte) (a b : bool) :
  len data < 2 ^ 63 ->
  rlp.DecodeBytes rlp.TBool data (Some a) = Ok b ->
  data = rlp.encodeString (if b then [Byte.x01] else []) [].
Proof.
  intros Hlen. unfold rlp.DecodeBytes, rlp.Decode, rlp.decoder, rlp.decodeBool.
  destruct (rlp.wrapped _ _ _) as [[b1 s1]|e|] eqn:Hw; try discriminate.
  apply wrapped_Ok in Hw. unfold rlp.Bool, rlp.bind in Hw.
  destruct (rlp.uint 8 _) as [[num s2]|e|] eqn:Hu; try discriminate.
  destruct (Z.ltb_spec 0 (len (rlp.r s1))) as [Hr|Hr]; [discriminate|].
  intros H. injection H as <-.
  assert (Hnil : rlp.r s1 = [])
    by (apply len_zero_nil; pose proof (len_nonneg (rlp.r s1)); lia).
  unfold rlp.ret, rlp.fail in Hw.
  destruct (Z.eqb_spec num 0) as [E0|E0];
    [|destruct (Z.eqb_spec num 1) as [E1|E1]; [|discriminate Hw]];
    injection Hw as <- <-; subst num;
    destruct (uint_full_inv _ 8 _ _ Hlen ltac:(cbv; split; discriminate) Hu Hnil)
      as (_ & Hd); exact Hd.
Qed.

(** A non-empty input accepted for a string, unsigned integer, bool or big
    integer destination: the destination keeps its type and receives a
    well-formed value, and the input is the envelope of that value's
    payload. *)
Lemma decode_payload (val : value) (data : list byte) (val' : value) :
  isDest val = true -> fixedSize val = false ->
  len data < 2 ^ 63 -> data <> [] ->
  decodeStorage data val = Ok val' ->
  isDest val' = true /\ nonNil val' = true /\ wf val' /\ nonNegative val' /\
  fresh val' = fresh val /\
  data = rlp.encodeString (payloadOf val') [].
Proof.
  intros Hd Hf Hlen Hne.
  assert (H0 : (len data =? 0) = false).
  { apply Z.eqb_neq. intros E. apply len_zero_nil in E. contradiction. }
  assert (H63 : forall x, x <= len data -> x < 2 ^ 63) by (intros x Hx; lia).
  destruct val as [v|[v|]|v|[v|]|v|[v|]|k v|k [v|]|v|[v|]|v|[v|]|name enc dec|];
    try discriminate Hd; try discriminate Hf;
    cbn [decodeStorage]; rewrite H0; cbn [rlp_DecodeBytes geth];
    try (intros H; discriminate H).
  - destruct (rlp.DecodeBytes rlp.TString data (Some v)) as [s| |] eqn:E;
      try discriminate.
    intros H. injection H as <-.
    destruct (DecodeBytes_string_inv _ _ _ Hlen E) as (Hdata & Hl).
    unfold fresh. cbn [isDest nonNil wf nonNegative pointerTo zeroOf payloadOf].
    repeat split; try assumption. apply H63. exact Hl.
  - destruct (rlp.DecodeBytes (rlp.TUint k) data (Some v)) as [x| |] eqn:E;
      try discriminate.
    intros H. injection H as <-.
    destruct (DecodeBytes_uint_inv _ _ _ _ Hlen E) as (Hr & Hdata).
    unfold fresh. cbn [isDest nonNil wf nonNegative pointerTo zeroOf payloadOf].
    repeat split; try assumption; lia.
  - destruct (rlp.DecodeBytes rlp.TBool data (Some v)) as [b| |] eqn:E;
      try discriminate.
    intros H. injection H as <-.
    pose proof (DecodeBytes_bool_inv _ _ _ Hlen E) as Hdata.
    unfold fresh. cbn [isDest nonNil wf nonNegative pointerTo zeroOf payloadOf].
    repeat split; assumption.
  - destruct (rlp.DecodeBytes rlp.TBigInt data (Some v)) as [x| |] eqn:E;
      try discriminate.
    intros H. injection H as <-.
    destruct (DecodeBytes_big_inv _ _ _ Hlen E) as (Hv & Hdata & Hl).
    unfold fresh. cbn [isDest nonNil wf nonNegative pointerTo zeroOf payloadOf].
    repeat split; try assumption. apply H63. exact Hl.
Qed.

Lemma isDest_builtin (val : value) : isDest val = true -> isBuiltin val = true.
Proof. destruct val; intros H; try discriminate H; reflexivity. Qed.

Lemma isDest_pointer (val : value) : isDest val = true -> pointerTo val = val.
Proof. destruct val; intros H; try discriminate H; reflexivity. Qed.

Lemma decode_empty (val val' : value) :
  isDest val = true -> decodeStorage [] val = Ok val' ->
  nonNil val = true /\ val' = zeroOf val.
Proof.
  intros Hd.
  destruct val as [v|[v|]|v|[v|]|v|[v|]|k v|k [v|]|v|[v|]|v|[v|]|name enc dec|];
    try discriminate Hd; cbn; intros H; try discriminate H;
    injection H as <-; split; reflexivity.
Qed.

(** After a successful
    [decodeStorage] the destination has the same type and is not nil, a
    hash still has 32 bytes and an address 20, an unsigned integer lies
    within the range of its width, and a big integer is not negative. *)
Lemma decode_wf (val : value) (data : list byte) (val' : value) :
  isDest val = true -> wf val -> len data < 2 ^ 63 ->
  decodeStorage data val = Ok val' ->
  isDest val' = true /\ nonNil val' = true /\ fresh val' = fresh val /\
  wf val' /\ nonNegative val'.
Proof.
  intros Hd Hwf Hlen Hdec.
  destruct data as [|b data].
  - destruct (decode_empty val val' Hd Hdec) as (Hn & ->).
    destruct val as [v|[v|]|v|[v|]|v|[v|]|k v|k [v|]|v|[v|]|v|[v|]|name enc dec|];
      try discriminate Hd; try discriminate Hn;
      unfold fresh; cbn [isDest nonNil pointerTo zeroOf wf nonNegative];
      repeat split; try reflexivity; try lia; try discriminate.
    + destruct k; reflexivity.
  - destruct (fixedSize val) eqn:Hf.
    + assert (Hfix : forall n (h c : list byte), 0 <= n -> len h = n ->
                len (common.SetBytes n h c) = n).
      { intros n h c Hn Hh. rewrite SetBytes_cases by exact Hn.
        pose proof (len_nonneg c).
        destruct (Z.ltb_spec n (len c)).
        - rewrite len_slice_from by lia. lia.
        - rewrite len_app, len_slice_to by lia. lia. }
      destruct val as [v|[v|]|v|[v|]|v|[v|]|k v|k [v|]|v|[v|]|v|[v|]|name enc dec|];
        try discriminate Hd; try discriminate Hf;
        cbn [decodeStorage] in Hdec;
        change (len (b :: data) =? 0) with (Z.of_nat (S (List.length data)) =? 0) in Hdec;
        cbn [Z.of_nat Z.eqb] in Hdec; cbn [rlp_Split geth] in Hdec;
        destruct (rlp.Split (b :: data)) as [[[k c] rest]| |]; try discriminate Hdec;
        cbn [omap deref] in Hdec; try discriminate Hdec;
        injection Hdec as <-;
        unfold fresh; cbn [isDest nonNil pointerTo zeroOf wf nonNegative] in *;
        repeat split; apply Hfix; (assumption || (cbv; discriminate)).
    + destruct (decode_payload val (b :: data) val' Hd Hf Hlen ltac:(discriminate) Hdec)
        as (Hd' & Hn' & Hwf' & Hpos' & Hty & _).
      repeat split; assumption.
Qed.

(** ** The decoder, read backwards *)

(** X8. What [decodeStorage] accepts for a string, unsigned integer, bool
    or big integer destination is canonical: encoding the decoded value
    gives the input back. The one exception is the input [0x80], the
    envelope of the empty string, which is accepted as the zero value,
    while the encoder writes the zero value as no bytes at all. *)
Theorem accepted_input_is_canonical (val : value) (data : list byte) (val' : value) :
  isDest val = true -> fixedSize val = false -> len data < 2 ^ 63 ->
  decodeStorage data val = Ok val' ->
  (data = [Byte.x80] /\ val' = zeroOf val) \/ encodeStorage val' = Ok data.
Proof.
  intros Hd Hf Hlen Hdec.
  destruct data as [|b data].
  - right. destruct (decode_empty val val' Hd Hdec) as (Hn & ->).
    destruct val as [v|[v|]|v|[v|]|v|[v|]|k v|k [v|]|v|[v|]|v|[v|]|name enc dec|];
      try discriminate Hd; try discriminate Hn; reflexivity.
  - destruct (decode_payload val (b :: data) val' Hd Hf Hlen ltac:(discriminate) Hdec)
      as (Hd' & Hn' & Hwf' & Hpos' & Hty & Hdata).
    pose proof (isDest_builtin val' Hd') as Hb'.
    rewrite (encode_by_payload val' Hb' Hn' Hwf' Hpos').
    destruct (len (payloadOf val') =? 0) eqn:E.
    + left. split.
      * apply Z.eqb_eq in E. apply len_zero_nil in E. rewrite E in Hdata. exact Hdata.
      * apply (payload_empty_iff_zero val' Hb' Hn' Hwf' Hpos') in E.
        rewrite (isDest_pointer val' Hd') in E. rewrite E, Hty.
        unfold fresh. rewrite (isDest_pointer val Hd). reflexivity.
    + right. rewrite <- Hdata. reflexivity.
Qed.

Lemma accepted_input_is_canonical_witness :
  ([Byte.x82; Byte.x01; Byte.x2c] = [Byte.x80] /\
   PUint Kuint64 (Some 300) = zeroOf (PUint Kuint64 (Some 7))) \/
  encodeStorage (PUint Kuint64 (Some 300)) = Ok [Byte.x82; Byte.x01; Byte.x2c].
Proof.
  apply (accepted_input_is_canonical (PUint Kuint64 (Some 7))
           [Byte.x82; Byte.x01; Byte.x2c] (PUint Kuint64 (Some 300)));
    reflexivity.
Defined.

(** X9. Decoding keeps the destination well-formed: after a successful
    [decodeStorage] the destination has the same type and is not nil, a
    hash still has 32 bytes and an address 20, an unsigned integer lies
    within the range of its width, and a big integer is not negative. *)
Theorem decode_keeps_wf (val : value) (data : list byte) (val' : value) :
  isDest val = true -> wf val -> len data < 2 ^ 63 ->
  decodeStorage data val = Ok val' ->
  isDest val' = true /\ nonNil val' = true /\ fresh val' = fresh val /\
  wf val' /\ nonNegative val'.
Proof. exact (decode_wf val data val'). Qed.

Lemma decode_keeps_wf_witness :
  isDest (PUint Kuint16 (Some 300)) = true /\
  nonNil (PUint Kuint16 (Some 300)) = true /\
  fresh (PUint Kuint16 (Some 300)) = fresh (PUint Kuint16 (Some 0)) /\
  wf (PUint Kuint16 (Some 300)) /\ nonNegative (PUint Kuint16 (Some 300)).
Proof.
  apply (decode_keeps_wf (PUint Kuint16 (Some 0)) [Byte.x82; Byte.x01; Byte.x2c]
           (PUint Kuint16 (Some 300))).
  - reflexivity.
  - cbn. split; [discriminate | reflexivity].
  - reflexivity.
  - reflexivity.
Defined.

(** X10. A bool destination accepts exactly three inputs: no bytes and
    [0x80] give [false], [0x01] gives [true]; every other input is an
    error. *)
Theorem bool_accepts_three_inputs (data : list byte) (old : bool) (val' : value) :
  len data < 2 ^ 63 ->
  (decodeStorage data (PBool (Some old)) = Ok val' <->
   (data = [] /\ val' = PBool (Some false)) \/
   (data = [Byte.x80] /\ val' = PBool (Some false)) \/
   (data = [Byte.x01] /\ val' = PBool (Some true))).
Proof.
  intros Hlen. split.
  - destruct data as [|b data].
    + cbn. intros H. injection H as <-. left. split; reflexivity.
    + cbn [decodeStorage].
      change (len (b :: data) =? 0) with (Z.of_nat (S (List.length data)) =? 0).
      cbn [Z.of_nat Z.eqb]. cbn [rlp_DecodeBytes geth].
      destruct (rlp.DecodeBytes rlp.TBool (b :: data) (Some old)) as [x| |] eqn:E;
        try discriminate.
      intros H. injection H as <-.
      pose proof (DecodeBytes_bool_inv _ _ _ Hlen E) as Hdata.
      right. destruct x; [right | left]; split; (exact Hdata || reflexivity).
  - intros [[-> ->] | [[-> ->] | [-> ->]]]; reflexivity.
Qed.

Lemma bool_accepts_three_inputs_witness :
  decodeStorage [Byte.x01] (PBool (Some false)) = Ok (PBool (Some true)) <->
  ([Byte.x01] = [] /\ PBool (Some true) = PBool (Some false)) \/
  ([Byte.x01] = [Byte.x80] /\ PBool (Some true) = PBool (Some false)) \/
  ([Byte.x01] = [Byte.x01] /\ PBool (Some true) = PBool (Some true)).
Proof.
  apply (bool_accepts_three_inputs [Byte.x01] false (PBool (Some true))).
  reflexivity.
Defined.

(** X11. Reading is stable: whatever input [decodeStorage] accepted, the
    value it left in the destination can be encoded, and decoding that
    encoding into a zeroed destination of the same type gives the same
    value again. *)
Theorem reading_is_stable (val : value) (data : list byte) (val' : value) :
  isDest val = true -> wf val -> len data < 2 ^ 63 ->
  decodeStorage data val = Ok val' ->
  exists data',
    encodeStorage val' = Ok data' /\
    decodeStorage data' (fresh val) = Ok val'.
Proof.
  intros Hd Hwf Hlen Hdec.
  destruct (decode_wf val data val' Hd Hwf Hlen Hdec)
    as (Hd' & Hn' & Hty & Hwf' & Hpos').
  destruct (roundtrip_builtin val' (isDest_builtin val' Hd') Hn' Hwf' Hpos')
    as (data' & He & Hr).
  exists data'. split; [exact He|].
  rewrite <- Hty. rewrite Hr. rewrite (isDest_pointer val' Hd'). reflexivity.
Qed.

Lemma reading_is_stable_witness :
  exists data',
    encodeStorage (PBool (Some false)) = Ok data' /\
    decodeStorage data' (fresh (PBool (Some true))) = Ok (PBool (Some false)).
Proof.
  apply (reading_is_stable (PBool (Some true)) [Byte.x80] (PBool (Some false)));
    reflexivity.
Defined.

(** X12. [decodeStorage] panics only on a nil destination: with any
    destination that is neither a nil pointer nor the nil interface it
    returns, for every input. *)
Theorem decode_panics_only_on_nil (data : list byte) (val : value) :
  decodeStorage data val = Panic -> nonNil val = false.
Proof.
  destruct val as [v|[v|]|v|[v|]|v|[v|]|k v|k [v|]|v|[v|]|v|[v|]|name enc dec|];
    try reflexivity; cbn [decodeStorage];
    try (cbn; intros H; discriminate H);
    destruct (len data =? 0); try (cbn; intros H; discriminate H);
    cbn [rlp_Split rlp_DecodeBytes geth].
  - pose proof (Split_no_panic data) as Hs.
    destruct (rlp.Split data) as [[[k c] r]| |]; cbn; intros H;
      try discriminate H; contradiction.
  - pose proof (Split_no_panic data) as Hs.
    destruct (rlp.Split data) as [[[k c] r]| |]; cbn; intros H;
      try discriminate H; contradiction.
  - pose proof (DecodeBytes_no_panic rlp.TString data (Some v)) as Hs.
    destruct (rlp.DecodeBytes rlp.TString data (Some v)); cbn; intros H;
      try discriminate H; contradiction.
  - pose proof (DecodeBytes_no_panic (rlp.TUint k) data (Some v)) as Hs.
    destruct (rlp.DecodeBytes (rlp.TUint k) data (Some v)); cbn; intros H;
      try discriminate H; contradiction.
  - pose proof (DecodeBytes_no_panic rlp.TBool data (Some v)) as Hs.
    destruct (rlp.DecodeBytes rlp.TBool data (Some v)); cbn; intros H;
      try discriminate H; contradiction.
  - pose proof (DecodeBytes_no_panic rlp.TBigInt data (Some v)) as Hs.
    destruct (rlp.DecodeBytes rlp.TBigInt data (Some v)); cbn; intros H;
      try discriminate H; contradiction.
Qed.

Lemma decode_panics_only_on_nil_witness : nonNil (PUint Kuint8 None) = false.
Proof.
  apply (decode_panics_only_on_nil [] (PUint Kuint8 None)). reflexivity.
Defined.

(** X13. A nil destination of a supported type is never decoded into: on
    an absent slot [decodeStorage] panics when it stores the zero value,
    and on a present slot a string, unsigned integer, bool or big integer
    destination gives the envelope's nil-pointer error. *)
Theorem nil_destination (data : list byte) (val : value) :
  isDest val = true -> nonNil val = false ->
  (forall val', decodeStorage data val <> Ok val') /\
  (data = [] -> decodeStorage data val = Panic) /\
  (data <> [] -> fixedSize val = false ->
   decodeStorage data val = Err errDecodeIntoNil).
Proof.
  intros Hd Hn.
  assert (H0 : data <> [] -> (len data =? 0) = false).
  { intros Hne. apply Z.eqb_neq. intros E. apply len_zero_nil in E. contradiction. }
  destruct val as [v|[v|]|v|[v|]|v|[v|]|k v|k [v|]|v|[v|]|v|[v|]|name enc dec|];
    try discriminate Hd; try discriminate Hn;
    (split; [|split]);
    try (intros ->; reflexivity);
    try (intros Hne Hf; try discriminate Hf; cbn [decodeStorage];
         rewrite (H0 Hne); reflexivity);
    intros val'; cbn [decodeStorage]; destruct (len data =? 0);
    try (cbn; discriminate);
    cbn [rlp_Split geth]; destruct (rlp.Split data) as [[[k c] r]| |];
    cbn; discriminate.
Qed.

Lemma nil_destination_witness :
  (forall val', decodeStorage [Byte.x01] (PString None) <> Ok val') /\
  ([Byte.x01] = [] -> decodeStorage [Byte.x01] (PString None) = Panic) /\
  ([Byte.x01] <> [] -> fixedSize (PString None) = false ->
   decodeStorage [Byte.x01] (PString None) = Err errDecodeIntoNil).
Proof.
  apply (nil_destination [Byte.x01] (PString None)); reflexivity.
Defined.



(** ** The trimming encoder on slices of any length *)

Lemma be_uint_zeros (n : nat) (bs : list byte) :
  be_uint (repeat Byte.x00 n ++ bs) = be_uint bs.
Proof.
  induction n as [|n IH]; [reflexivity|].
  cbn [repeat app]. rewrite be_uint_cons, len_app, IH.
  change (Zbyte Byte.x00) with 0. lia.
Qed.

(** X15. [encodeBytesTrimmed] looks only at the number the bytes spell:
    zero bytes put in front of a slice of any length do not change its
    encoding, so the encoding of an address is also the encoding of the
    hash that holds the address in its last 20 bytes. *)
Theorem trimmed_ignores_leading_zeros (n : nat) (bs : list byte) :
  encodeBytesTrimmed (repeat Byte.x00 n ++ bs) = encodeBytesTrimmed bs /\
  encodeStorage (VBytes32 (repeat Byte.x00 n ++ bs)) = encodeStorage (VAddress bs).
Proof.
  assert (H : encodeBytesTrimmed (repeat Byte.x00 n ++ bs) = encodeBytesTrimmed bs).
  { rewrite !encode_trimmed_as_big, be_uint_zeros. reflexivity. }
  split; exact H.
Qed.
